(** * Deep texture representations: a model of [deeptexture/dtr.py]

    The development embeds the [DTR] class of [src/deeptexture/dtr.py]:
    construction, compact bilinear pooling ([forward]), the descriptor
    pipeline ([get_dtr]), cosine similarity ([sim]) and the per-case
    aggregation ([get_mean_dtrs]).

    Conventions of the embedding.
    - A Python object is its attribute dictionary, a [gmap string pyval];
      reading an attribute that was never assigned raises [AttributeError].
      Assigning an attribute updates the dictionary.  What
      [torch.nn.Module] does besides on assignment (it registers
      sub-modules, and refuses them before [Module.__init__] has run,
      which [DTR.__init__], unlike [Vgg16.__init__], never calls) is not
      part of the embedding.
    - Exceptions are values of [exn]; a call returns a [result].
    - A tensor or numpy array is dense and row-major: a shape and the flat
      list of its entries.
    - Floating-point numbers are idealised as extended reals [fl]: arithmetic
      is exact, and the IEEE special values appear where the code can create
      them (division by zero, square root of a negative number). *)

From Stdlib Require Import Reals Lra Lia ZArith List Epsilon Sorted.
From stdpp Require Import base gmap strings list.

Open Scope R_scope.

(** ** Numbers *)

Inductive fl : Type :=
| Fin (r : R)
| PInf
| NInf
| NaN.

Definition fl_zero : fl := Fin 0.
Definition fl_of_nat (n : nat) : fl := Fin (INR n).
Definition fl_of_Z (z : Z) : fl := Fin (IZR z).

Definition fl_inf (positive : bool) : fl := if positive then PInf else NInf.

Definition fl_neg (a : fl) : fl :=
  match a with
  | Fin x => Fin (- x)
  | PInf => NInf
  | NInf => PInf
  | NaN => NaN
  end.

Definition fl_add (a b : fl) : fl :=
  match a, b with
  | NaN, _ | _, NaN => NaN
  | Fin x, Fin y => Fin (x + y)
  | PInf, NInf | NInf, PInf => NaN
  | PInf, _ | _, PInf => PInf
  | NInf, _ | _, NInf => NInf
  end.

Definition fl_sub (a b : fl) : fl := fl_add a (fl_neg b).

(** Sign of a real, as the product and the quotient of infinities need it:
    [None] for zero. *)
Definition R_sign (x : R) : option bool :=
  if Req_dec_T x 0 then None
  else if Rlt_dec 0 x then Some true else Some false.

Definition fl_sign (a : fl) : option bool :=
  match a with
  | Fin x => R_sign x
  | PInf => Some true
  | NInf => Some false
  | NaN => None
  end.

Definition fl_mul (a b : fl) : fl :=
  match a, b with
  | NaN, _ | _, NaN => NaN
  | Fin x, Fin y => Fin (x * y)
  | _, _ =>
      match fl_sign a, fl_sign b with
      | Some s, Some t => fl_inf (Bool.eqb s t)
      | _, _ => NaN
      end
  end.

(** Division as numpy and torch perform it: no exception, [x/0] is an
    infinity of the sign of [x] and [0/0] is [NaN]. *)
Definition fl_div (a b : fl) : fl :=
  match a, b with
  | NaN, _ | _, NaN => NaN
  | Fin x, Fin y =>
      if Req_dec_T y 0 then
        match R_sign x with
        | Some s => fl_inf s
        | None => NaN
        end
      else Fin (x / y)
  | Fin _, _ => Fin 0
  | _, Fin y =>
      match fl_sign a, R_sign y with
      | Some s, Some t => fl_inf (Bool.eqb s t)
      | Some s, None => fl_inf s
      | None, _ => NaN
      end
  | _, _ => NaN
  end.

Definition fl_sqrt (a : fl) : fl :=
  match a with
  | Fin x => if Rlt_dec x 0 then NaN else Fin (sqrt x)
  | PInf => PInf
  | NInf | NaN => NaN
  end.

Definition fsum (l : list fl) : fl := fold_right fl_add fl_zero l.

Definition is_finite (a : fl) : Prop :=
  match a with Fin _ => True | _ => False end.

Definition Rsum (l : list R) : R := fold_right Rplus 0 l.

(** ** Exceptions and results *)

Inductive exn : Type :=
| AttributeError (name : string)
| AssertionError
| TypeError (msg : string)
| ValueError (msg : string)
| IndexError (msg : string)
| RuntimeError (msg : string)
| OSError (msg : string)
| KeyError (key : string)
| UnboundLocalError (name : string)
| Exception (msg : string).

Inductive result (A : Type) : Type :=
| Ok (a : A)
| Raise (e : exn).

Arguments Ok {A} a.
Arguments Raise {A} e.

#[global] Instance result_ret : MRet result := fun A a => Ok a.
#[global] Instance result_bind : MBind result :=
  fun A B f m => match m with Ok a => f a | Raise e => Raise e end.

Definition raises {A : Type} (m : result A) : Prop :=
  match m with Raise _ => True | Ok _ => False end.


(** [[f(x) for x in l]]: the elements are evaluated left to right and the
    first exception ends the comprehension. *)
Fixpoint comprehension {A B : Type} (f : A -> result B) (l : list A)
  : result (list B) :=
  match l with
  | [] => Ok []
  | x :: l' => y ← f x; ys ← comprehension f l'; mret (y :: ys)
  end.

(** ** Dense arrays *)

Record ndarray : Type := mk_ndarray { shape : list nat; data : list fl }.

(** Torch tensors are stored the same way. *)
Abbreviation Tensor := ndarray.

Definition numel (s : list nat) : nat := fold_right Nat.mul 1%nat s.

Definition tabulate {A : Type} (n : nat) (f : nat -> A) : list A :=
  map f (seq 0 n).

Definition at_flat (d : list fl) (i : nat) : fl := nth i d NaN.

(** [chunks m k d]: [k] consecutive blocks of [m] entries of [d]. *)
Definition chunks (m k : nat) (d : list fl) : list (list fl) :=
  tabulate k (fun i => firstn m (skipn (i * m) d)).

(** ** numpy's legacy random generator

    [np.random.seed] and [np.random.randint] drive the global Mersenne
    Twister (MT19937) of numpy's legacy [RandomState].  Words are 32-bit
    unsigned integers, held in [Z] and masked after each multiplication. *)

Open Scope Z_scope.

Definition u32 (z : Z) : Z := Z.land z 4294967295.

Record mt19937_state : Type := { mt_key : list Z; mt_pos : nat }.

Fixpoint mt19937_seed_loop (n : nat) (p : Z) (seed : Z) : list Z :=
  match n with
  | O => []
  | S n' =>
      seed :: mt19937_seed_loop n' (p + 1)
                (u32 (1812433253 * Z.lxor seed (Z.shiftr seed 30) + p + 1))
  end.

(** [np.random.seed(seed)] for an integer seed. *)
Definition mt19937_seed (seed : Z) : mt19937_state :=
  {| mt_key := mt19937_seed_loop 624 0 (u32 seed); mt_pos := 624 |}.

Definition mt_at (k : list Z) (i : nat) : Z := nth i k 0.

Definition mt_twist_word (k : list Z) (kk : nat) : Z :=
  let y := Z.lor (Z.land (mt_at k kk) 2147483648)
                 (Z.land (mt_at k ((kk + 1) mod 624)) 2147483647) in
  Z.lxor (Z.lxor (mt_at k ((kk + 397) mod 624)) (Z.shiftr y 1))
         (if Z.testbit y 0 then 2567483615 else 0).

(** Regeneration of the 624 words, in place and in index order. *)
Definition mt19937_gen (k : list Z) : list Z :=
  fold_left (fun k kk => <[kk := mt_twist_word k kk]> k) (seq 0 624) k.

Definition mt_temper (y : Z) : Z :=
  let y := Z.lxor y (Z.shiftr y 11) in
  let y := Z.lxor y (Z.land (Z.shiftl y 7) 2636928640) in
  let y := Z.lxor y (Z.land (Z.shiftl y 15) 4022730752) in
  Z.lxor y (Z.shiftr y 18).

Definition mt19937_next (st : mt19937_state) : Z * mt19937_state :=
  let st := if (624 <=? mt_pos st)%nat
            then {| mt_key := mt19937_gen (mt_key st); mt_pos := 0 |}
            else st in
  (mt_temper (mt_at (mt_key st) (mt_pos st)),
   {| mt_key := mt_key st; mt_pos := S (mt_pos st) |}).

(** [randint(2, size=n)]: the range [0, 1] needs one bit, taken as the low
    bit of each 32-bit draw (no draw is ever rejected). *)
Fixpoint randint2_fill (n : nat) (st : mt19937_state)
  : list Z * mt19937_state :=
  match n with
  | O => ([], st)
  | S n' =>
      let '(y, st1) := mt19937_next st in
      let '(ys, st2) := randint2_fill n' st1 in
      (Z.land y 1 :: ys, st2)
  end.

(** [np.random.seed(seed); np.random.randint(2, size=(r, c)) * 2 - 1],
    converted by [torch.Tensor]. *)
Definition random_signs (seed : Z) (r c : nat) : ndarray :=
  {| shape := [r; c];
     data := map (fun b => fl_of_Z (b * 2 - 1))
                 (fst (randint2_fill (r * c) (mt19937_seed seed))) |}.

Open Scope R_scope.

(** ** Python values held in attributes *)

Inductive layer : Type :=
| Conv2d (in_channels out_channels : nat)
| ReLU
| MaxPool2d.

Inductive transform : Type :=
| ToTensor
| Normalize (mean std : list R).

Inductive pyval : Type :=
| PNone
| PInt (z : Z)
| PStr (s : string)
| PArr (a : ndarray)
| PLayers (l : list layer)
| PTransform (t : transform)
| PCompose (ts : list transform).

(** An instance is its [__dict__]. *)
Abbreviation pyobj := (gmap string pyval).

Definition getattr (self : pyobj) (name : string) : result pyval :=
  match self !! name with
  | Some v => Ok v
  | None => Raise (AttributeError name)
  end.

Definition setattr (self : pyobj) (name : string) (v : pyval) : pyobj :=
  <[name := v]> self.

(** [vgg16(...).features]: torchvision's configuration D, 13 convolutions
    in five blocks, each block closed by a max-pooling. *)
Definition vgg16_features : list layer :=
  [ Conv2d 3 64; ReLU; Conv2d 64 64; ReLU; MaxPool2d;
    Conv2d 64 128; ReLU; Conv2d 128 128; ReLU; MaxPool2d;
    Conv2d 128 256; ReLU; Conv2d 256 256; ReLU; Conv2d 256 256; ReLU;
    MaxPool2d;
    Conv2d 256 512; ReLU; Conv2d 512 512; ReLU; Conv2d 512 512; ReLU;
    MaxPool2d;
    Conv2d 512 512; ReLU; Conv2d 512 512; ReLU; Conv2d 512 512; ReLU;
    MaxPool2d ].

(** [l[-k]] for [k > 0]. *)
Definition index_from_end {A : Type} (l : list A) (k : nat) : result A :=
  if (length l <? k)%nat then Raise (IndexError "list index out of range")
  else match l !! (length l - k)%nat with
       | Some x => Ok x
       | None => Raise (IndexError "list index out of range")
       end.

Definition out_channels (l : layer) : result nat :=
  match l with
  | Conv2d _ o => Ok o
  | _ => Raise (AttributeError "out_channels")
  end.

Definition as_layers (v : pyval) : result (list layer) :=
  match v with
  | PLayers l => Ok l
  | _ => Raise (TypeError "object is not subscriptable")
  end.

Definition as_int (v : pyval) : result Z :=
  match v with
  | PInt z => Ok z
  | _ => Raise (TypeError "an integer is required")
  end.

Definition as_tensor (v : pyval) : result Tensor :=
  match v with
  | PArr a => Ok a
  | _ => Raise (TypeError "a Tensor is required")
  end.

(** A dimension given to [randint(..., size=...)]. *)
Definition as_dim (v : pyval) : result nat :=
  z ← as_int v;
  if (z <? 0)%Z then Raise (ValueError "negative dimensions are not allowed")
  else Ok (Z.to_nat z).

(** [n == v] for a Python int [n]: a value of another type is not equal. *)
Definition int_eq_pyval (n : nat) (v : pyval) : bool :=
  match v with
  | PInt z => (Z.of_nat n =? z)%Z
  | _ => false
  end.

(** ** Tensor operations used by [forward] *)

(** [t.size(d)]. *)
Definition size_at (t : Tensor) (d : nat) : result nat :=
  match shape t !! d with
  | Some n => Ok n
  | None => Raise (IndexError "Dimension out of range")
  end.

(** [a, b, c, d = t.size()]. *)
Definition unpack4 (s : list nat) : result (nat * nat * nat * nat) :=
  match s with
  | [a; b; c; d] => Ok (a, b, c, d)
  | _ => Raise (ValueError "wrong number of values to unpack")
  end.

(** [t.permute(0, 2, 3, 1).contiguous()]: entry [(b, h, w, c)] of the result
    is entry [(b, c, h, w)] of [t], and the result is stored row-major. *)
Definition permute_0231 (t : Tensor) : result Tensor :=
  match shape t with
  | [b; c; h; w] =>
      Ok {| shape := [b; h; w; c];
            data := tabulate (b * h * w * c) (fun i =>
              let ic := (i mod c)%nat in
              let iw := (i / c mod w)%nat in
              let ih := (i / c / w mod h)%nat in
              let ib := (i / c / w / h)%nat in
              at_flat (data t) (((ib * c + ic) * h + ih) * w + iw)%nat) |}
  | _ => Raise (RuntimeError "permute: number of dims does not match")
  end.

(** [t.view(-1, c)]. *)
Definition view_rows (t : Tensor) (c : Z) : result Tensor :=
  let n := numel (shape t) in
  if (c <? 0)%Z then Raise (RuntimeError "invalid shape dimension")
  else
    let c := Z.to_nat c in
    if (c =? 0)%nat then Raise (RuntimeError "cannot infer the dimension -1")
    else if (n mod c =? 0)%nat
         then Ok {| shape := [(n / c)%nat; c]; data := data t |}
         else Raise (RuntimeError "shape is invalid for input size").

(** [t.view(b, h, w, d)]; [d = -1] is inferred. *)
Definition view4 (t : Tensor) (b h w : nat) (d : Z) : result Tensor :=
  let n := numel (shape t) in
  let p := (b * h * w)%nat in
  if (d =? -1)%Z then
    if (p =? 0)%nat then Raise (RuntimeError "cannot infer the dimension -1")
    else if (n mod p =? 0)%nat
         then Ok {| shape := [b; h; w; (n / p)%nat]; data := data t |}
         else Raise (RuntimeError "shape is invalid for input size")
  else if (d <? 0)%Z then Raise (RuntimeError "invalid shape dimension")
  else if (n =? p * Z.to_nat d)%nat
       then Ok {| shape := [b; h; w; Z.to_nat d]; data := data t |}
       else Raise (RuntimeError "shape is invalid for input size").

(** [torch.matmul] of two matrices.  [forward] applies it to the result of
    [view(-1, _)], a matrix, and to a projection attribute; operands of
    another rank are outside the model and reported as an error. *)
Definition matmul (a b : Tensor) : result Tensor :=
  match shape a, shape b with
  | [n; k], [k'; m] =>
      if (k =? k')%nat then
        Ok {| shape := [n; m];
              data := tabulate (n * m) (fun i =>
                fsum (tabulate k (fun j =>
                  fl_mul (at_flat (data a) (i / m * k + j)%nat)
                         (at_flat (data b) (j * m + i mod m)%nat)))) |}
      else Raise (RuntimeError "mat1 and mat2 shapes cannot be multiplied")
  | _, _ => Raise (RuntimeError "matmul: operands are not both matrices")
  end.

(** [a * b] entry by entry, for operands of one shape (the two products of
    [forward] have the same number of rows; broadcasting is not modelled). *)
Definition tensor_mul (a b : Tensor) : result Tensor :=
  if decide (shape a = shape b)
  then Ok {| shape := shape a; data := zip_with fl_mul (data a) (data b) |}
  else Raise (RuntimeError "the sizes of the tensors must match").

(** [t.mean(dim=1)]. *)
Definition mean_dim1 (t : Tensor) : result Tensor :=
  match shape t with
  | d0 :: d1 :: rest =>
      let inner := numel rest in
      Ok {| shape := d0 :: rest;
            data := tabulate (d0 * inner) (fun i =>
              fl_div
                (fsum (tabulate d1 (fun j =>
                   at_flat (data t)
                     ((i / inner * d1 + j) * inner + i mod inner)%nat)))
                (fl_of_nat d1)) |}
  | _ => Raise (IndexError "Dimension out of range")
  end.

(** [t.unsqueeze_(0)]. *)
Definition unsqueeze0 (t : Tensor) : Tensor :=
  {| shape := 1%nat :: shape t; data := data t |}.

(** ** numpy operations *)

(** [np.atleast_2d]. *)
Definition np_atleast_2d (a : ndarray) : ndarray :=
  match shape a with
  | [] => {| shape := [1%nat; 1%nat]; data := data a |}
  | [m] => {| shape := [1%nat; m]; data := data a |}
  | _ => a
  end.

Definition np_concatenate2 (a b : ndarray) : result ndarray :=
  match shape a, shape b with
  | n :: ra, m :: rb =>
      if decide (ra = rb)
      then Ok {| shape := (n + m)%nat :: ra; data := data a ++ data b |}
      else Raise (ValueError "the input array dimensions must match")
  | _, _ =>
      Raise (ValueError "zero-dimensional arrays cannot be concatenated")
  end.

(** [np.concatenate(l)], along the first axis. *)
Fixpoint np_concatenate_onto (acc : ndarray) (l : list ndarray)
  : result ndarray :=
  match l with
  | [] => Ok acc
  | b :: l' => c ← np_concatenate2 acc b; np_concatenate_onto c l'
  end.

Definition np_concatenate (l : list ndarray) : result ndarray :=
  match l with
  | [] => Raise (ValueError "need at least one array to concatenate")
  | a :: l' =>
      match shape a with
      | [] => Raise (ValueError "zero-dimensional arrays cannot be concatenated")
      | _ => np_concatenate_onto a l'
      end
  end.

(** [np.vstack(l)]. *)
Definition np_vstack (l : list ndarray) : result ndarray :=
  np_concatenate (map np_atleast_2d l).

(** [np.mean(a, axis=0)]; over an empty axis the mean is [0/0]. *)
Definition np_mean_axis0 (a : ndarray) : result ndarray :=
  match shape a with
  | n :: rest =>
      let inner := numel rest in
      Ok {| shape := rest;
            data := tabulate inner (fun j =>
              fl_div
                (fsum (tabulate n (fun i =>
                   at_flat (data a) (i * inner + j)%nat)))
                (fl_of_nat n)) |}
  | [] => Raise (ValueError "axis 0 is out of bounds for array of dimension 0")
  end.

(** [a / c] for a scalar [c]. *)
Definition np_divide_scalar (a : ndarray) (c : fl) : ndarray :=
  {| shape := shape a; data := map (fun x => fl_div x c) (data a) |}.

(** [np.dot] of two vectors. *)
Definition np_dot (x y : list fl) : result fl :=
  if (length x =? length y)%nat then Ok (fsum (zip_with fl_mul x y))
  else Raise (ValueError "shapes not aligned").

(** The 2-norm of a vector, [sqrt(x.dot(x))]. *)
Definition vector_norm2 (x : list fl) : fl :=
  fl_sqrt (fsum (zip_with fl_mul x x)).

(** The 2-norm of a matrix is its largest singular value, the least upper
    bound of [|A x|] over the unit ball.  It is defined on real matrices. *)
Definition Rnorm (x : list R) : R := sqrt (Rsum (map (fun v => v * v) x)).

Definition Rmat_vec (n m : nat) (a x : list R) : list R :=
  tabulate n (fun i =>
    Rsum (tabulate m (fun j => nth (i * m + j)%nat a 0 * nth j x 0))).

Definition unit_ball_image (n m : nat) (a : list R) (v : R) : Prop :=
  exists x : list R,
    length x = m /\ Rnorm x <= 1 /\ v = Rnorm (Rmat_vec n m a x).

Definition largest_singular_value (n m : nat) (a : list R) : R :=
  epsilon (inhabits 0) (is_lub (unit_ball_image n m a)).

Definition is_finiteb (a : fl) : bool :=
  match a with Fin _ => true | _ => false end.

Definition fl_real (a : fl) : R :=
  match a with Fin r => r | _ => 0 end.

(** [np.linalg.norm(a, ord=2)]: the vector 2-norm of a 1-D array, the
    matrix 2-norm of a 2-D array, an error otherwise.  A matrix with an
    entry that is not finite has no singular values; its norm is [NaN]
    here. *)
Definition np_linalg_norm_ord2 (a : ndarray) : result fl :=
  match shape a with
  | [_] => Ok (vector_norm2 (data a))
  | [n; m] =>
      if forallb is_finiteb (data a)
      then Ok (Fin (largest_singular_value n m (map fl_real (data a))))
      else Ok NaN
  | _ => Raise (ValueError "Improper number of dimensions to norm.")
  end.

(** Sorting of strings in code-point order. *)
Fixpoint insert_sorted (s : string) (l : list string) : list string :=
  match l with
  | [] => [s]
  | x :: l' => if String.leb s x then s :: l else x :: insert_sorted s l'
  end.

(** [np.sort] on a 1-D array of strings. *)
Definition np_sort (l : list string) : list string :=
  fold_right insert_sorted [] l.

Fixpoint drop_adjacent_duplicates (l : list string) : list string :=
  match l with
  | [] => []
  | x :: l' =>
      match l' with
      | [] => [x]
      | y :: _ =>
          if String.eqb x y then drop_adjacent_duplicates l'
          else x :: drop_adjacent_duplicates l'
      end
  end.

(** [np.unique]: the sorted distinct elements. *)
Definition np_unique (l : list string) : list string :=
  drop_adjacent_duplicates (np_sort l).

(** [np.array(cases) == case]. *)
Definition np_equal_mask (cases : list string) (case : string) : list bool :=
  map (fun c => String.eqb c case) cases.

Definition mask_select {A : Type} (mask : list bool) (l : list A) : list A :=
  map snd (filter (fun p => fst p = true) (zip mask l)).

(** [a[mask, :]] for a boolean [mask] over the first axis. *)
Definition np_select_rows (a : ndarray) (mask : list bool) : result ndarray :=
  match shape a with
  | n :: (_ :: _) as rest =>
      if (length mask =? n)%nat then
        let sel := mask_select mask (chunks (numel rest) n (data a)) in
        Ok {| shape := length sel :: rest; data := concat sel |}
      else Raise (IndexError "boolean index did not match indexed array")
  | _ => Raise (IndexError "too many indices for array")
  end.

(** ** Collaborators of the pipeline *)

(** Arguments of [cv2.resize] passed by keyword. *)
Inductive cv_arg : Type :=
| CvNone
| CvSize (a b : Z)
| CvRatio (r : R).

(** [int(x)] for a float: truncation towards zero. *)
Definition R_trunc (x : R) : Z :=
  if Rle_dec 0 x then Int_part x else (- Int_part (- x))%Z.

(** The image argument of [get_dtr]: a file name, a numpy array, or another
    object, which [np.array] converts. *)
Inductive img_arg : Type :=
| ImgPath (path : string)
| ImgArray (a : ndarray)
| ImgObject (pixels : ndarray).

(** The angle argument of [get_dtr]; the elements of a list are angle
    arguments themselves, as the list is handed on element by element. *)
Unset Elimination Schemes.
Inductive angle_arg : Type :=
| AngleNone
| AngleInt (theta : Z)
| AngleList (thetas : list angle_arg)
| AngleOther (repr : string).
Set Elimination Schemes.

(** The attribute argument of [get_mean_dtrs]. *)
Inductive df_arg : Type :=
| DfNone
| DfList (l : list string)
| DfFrame (rows : list (list string)).

Definition dict_get (d : gmap string nat) (k : string) : result nat :=
  match d !! k with
  | Some v => Ok v
  | None => Raise (KeyError k)
  end.

Definition list_get {A : Type} (l : list A) (i : nat) : result A :=
  match l !! i with
  | Some x => Ok x
  | None => Raise (IndexError "index out of range")
  end.

(** ** Medoids *)

Definition fl_ltb (a b : fl) : bool :=
  match a, b with
  | Fin x, Fin y => if Rlt_dec x y then true else false
  | NInf, Fin _ | NInf, PInf | Fin _, PInf => true
  | _, _ => false
  end.

Definition cosine_similarity (x y : list fl) : fl :=
  fl_div (fsum (zip_with fl_mul x y)) (fl_mul (vector_norm2 x) (vector_norm2 y)).

Definition cosine_distance (x y : list fl) : fl :=
  fl_sub (Fin 1) (cosine_similarity x y).

(** The positions of the label [case], in ascending order. *)
Definition group_members (cases : list string) (case : string) : list nat :=
  filter (fun i => cases !! i = Some case) (seq 0 (length cases)).

Definition row_at (rows : list (list fl)) (i : nat) : list fl := nth i rows [].

(** Total similarity of member [i] to the other members of its group. *)
Definition total_similarity (rows : list (list fl)) (members : list nat)
    (i : nat) : fl :=
  fsum (map (fun j => cosine_similarity (row_at rows i) (row_at rows j))
            (filter (fun j => j <> i) members)).

Definition total_distance (rows : list (list fl)) (members : list nat)
    (i : nat) : fl :=
  fsum (map (fun j => cosine_distance (row_at rows i) (row_at rows j))
            (filter (fun j => j <> i) members)).

(** The first position of [best :: l] whose score no later one exceeds. *)
Fixpoint first_argmax (score : nat -> fl) (best : nat) (l : list nat) : nat :=
  match l with
  | [] => best
  | j :: l' =>
      first_argmax score (if fl_ltb (score best) (score j) then j else best) l'
  end.

Definition medoid_of (rows : list (list fl)) (members : list nat)
  : option nat :=
  match members with
  | [] => None
  | i :: l => Some (first_argmax (total_similarity rows members) i l)
  end.

Definition rows_of (a : ndarray) : list (list fl) :=
  match shape a with
  | n :: rest => chunks (numel rest) n (data a)
  | [] => []
  end.

(** Modelled from the spec: [get_medoid] is imported from
    [deeptexture/utils.py], which is not among the sources.  For each
    group it selects the index, within the full input, of the member that
    maximises the total cosine similarity to the other members of the
    group (that is, minimises the total cosine distance); ties go to the
    lowest index and a group of one selects its member. *)
Definition get_medoid (dtrs : ndarray) (cases : list string)
  : gmap string nat :=
  list_to_map
    (omap (fun case =>
             i ← medoid_of (rows_of dtrs) (group_members cases case);
             Some (case, i))
          (np_unique cases)).

(** ** The class [DTR] *)

Module DTR.

(** [DTR.__init__].  [rand_1] and [rand_2] are [None] when the caller
    leaves them out.  Raising a string is itself a [TypeError].  The
    placement [.to(device)] does not change the entries and is not
    modelled. *)
Definition __init__ (arch layer : string) (dim : Z)
    (rand_1 rand_2 : option pyval) (device : pyval) : result pyobj :=
  let self : pyobj := ∅ in
  let self := setattr self "device" device in
  self ← (if String.eqb arch "vgg"
          then Ok (setattr self "model" (PLayers vgg16_features))
          else Raise (TypeError "exceptions must derive from BaseException"));
  i ← (if String.eqb layer "block3_conv3" then Ok 16%nat
       else if String.eqb layer "block4_conv3" then Ok 23%nat
       else Raise (TypeError "exceptions must derive from BaseException"));
  model ← getattr self "model" ≫= as_layers;
  let self := setattr self "features" (PLayers (take i model)) in
  features ← getattr self "features" ≫= as_layers;
  input_dim ← index_from_end features 2 ≫= out_channels;
  let self := setattr self "input_dim" (PInt (Z.of_nat input_dim)) in
  let self := setattr self "output_dim" (PInt dim) in
  self ← match rand_1 with
         | None =>
             r ← getattr self "input_dim" ≫= as_dim;
             c ← getattr self "output_dim" ≫= as_dim;
             mret (setattr self "rand_1" (PArr (random_signs 128 r c)))
         | Some _ => Ok self
         end;
  self ← match rand_2 with
         | None =>
             r ← getattr self "input_dim" ≫= as_dim;
             c ← getattr self "output_dim" ≫= as_dim;
             mret (setattr self "rand_2" (PArr (random_signs 1997 r c)))
         | Some _ => Ok self
         end;
  let self := setattr self "normalize"
                (PTransform (Normalize [0.485; 0.456; 0.406]
                                       [0.229; 0.224; 0.225])) in
  normalize ← getattr self "normalize";
  prep ← match normalize with
         | PTransform n => Ok [ToTensor; n]
         | _ => Raise (TypeError "not a transform")
         end;
  mret (setattr self "prep" (PCompose prep)).

(** [DTR()]: every argument at its default. *)
Definition default : result pyobj :=
  __init__ "vgg" "block3_conv3" 1024 None None (PStr "cuda:0").

(** [DTR.forward]. *)
Definition forward (self : pyobj) (bottom : Tensor) : result Tensor :=
  channels ← size_at bottom 1;
  input_dim1 ← getattr self "input_dim1";
  _ ← (if int_eq_pyval channels input_dim1 then Ok tt
       else Raise AssertionError);
  '(batch_size, _, height, width) ← unpack4 (shape bottom);
  permuted ← permute_0231 bottom;
  input_dim1 ← getattr self "input_dim1" ≫= as_int;
  bottom_flat ← view_rows permuted input_dim1;
  rand_1 ← getattr self "rand_1" ≫= as_tensor;
  bottom1_mat ← matmul bottom_flat rand_1;
  rand_2 ← getattr self "rand_2" ≫= as_tensor;
  bottom2_mat ← matmul bottom_flat rand_2;
  cbp_flat ← tensor_mul bottom1_mat bottom2_mat;
  output_dim ← getattr self "output_dim" ≫= as_int;
  cbp ← view4 cbp_flat batch_size height width output_dim;
  cbp ← mean_dim1 cbp ≫= mean_dim1;
  mret cbp.

Section Pipeline.

(** Image decoding, resizing, rotation and preprocessing belong to PIL,
    OpenCV, SciPy and torchvision. *)
Variable Image_open_RGB : string -> result ndarray.
Variable cv2_resize_pixels :
  ndarray -> cv_arg -> option cv_arg -> option cv_arg -> result ndarray.
Variable ndimage_rotate : ndarray -> Z -> result ndarray.
Variable apply_transforms : list transform -> ndarray -> result Tensor.

(** [cv2.resize(src, **kwargs)]: the keywords are those of the binding,
    and [dsize] is required. *)
Definition cv2_resize_keywords : list string :=
  ["dsize"; "dst"; "fx"; "fy"; "interpolation"].

Definition kwarg (kwargs : list (string * cv_arg)) (k : string)
  : option cv_arg :=
  snd <$> find (fun kv => String.eqb (fst kv) k) kwargs.

Definition cv2_resize (src : ndarray) (kwargs : list (string * cv_arg))
  : result ndarray :=
  match find (fun kv => negb (existsb (String.eqb (fst kv))
                                      cv2_resize_keywords)) kwargs with
  | Some _ => Raise (TypeError "invalid keyword argument for resize()")
  | None =>
      match kwarg kwargs "dsize" with
      | None => Raise (TypeError "Required argument 'dsize' not found")
      | Some dsize =>
          cv2_resize_pixels src dsize (kwarg kwargs "fx") (kwarg kwargs "fy")
      end
  end.

(** [h, w, _ = x.shape]. *)
Definition unpack3 (s : list nat) : result (nat * nat * nat) :=
  match s with
  | [a; b; c] => Ok (a, b, c)
  | _ => Raise (ValueError "wrong number of values to unpack")
  end.

(** [self.prep(x).to(self.device)], then [unsqueeze_(0)]. *)
Definition prepare (self : pyobj) (x : ndarray) : result Tensor :=
  prep ← getattr self "prep";
  t ← match prep with
      | PCompose ts => apply_transforms ts x
      | PTransform t => apply_transforms [t] x
      | _ => Raise (TypeError "object is not callable")
      end;
  _ ← getattr self "device";
  mret (unsqueeze0 t).

(** [DTR.get_dtr]. *)
Fixpoint get_dtr (self : pyobj) (img : img_arg) (angle : angle_arg)
    (size : option Z) (scale : option R) (multi_scale : bool)
    {struct angle} : result ndarray :=
  x ← match img with
      | ImgPath path => Image_open_RGB path
      | ImgObject pixels => Ok pixels
      | ImgArray a => Ok a
      end;
  x ← match size, scale with
      | Some size, _ => cv2_resize x [("dsize", CvSize size size)]
      | None, Some scale =>
          '(h, w, _) ← unpack3 (shape x);
          cv2_resize x [("dsize", CvSize (R_trunc (INR h * scale))
                                         (R_trunc (INR w * scale)))]
      | None, None => Ok x
      end;
  x2 ← (if multi_scale
        then y ← cv2_resize x [("dize", CvNone); ("fx", CvRatio 0.25);
                               ("fy", CvRatio 0.25)];
             mret (Some y)
        else Ok None);
  let finish (x : ndarray) (x2 : option ndarray) : result ndarray :=
    x ← prepare self x;
    dtr ← forward self x;
    if multi_scale then
      x2 ← match x2 with
           | Some y => prepare self y
           | None => Raise (UnboundLocalError "x2")
           end;
      dtr2 ← forward self x2;
      np_concatenate [dtr; dtr2]
    else Ok dtr in
  match angle with
  | AngleNone => finish x x2
  | AngleInt theta =>
      x ← ndimage_rotate x theta;
      x2 ← (if multi_scale
            then match x2 with
                 | Some y => z ← ndimage_rotate y theta; mret (Some z)
                 | None => Raise (UnboundLocalError "x2")
                 end
            else Ok x2);
      finish x x2
  | AngleList thetas =>
      dtrs ← (fix each (l : list angle_arg) : result (list ndarray) :=
                match l with
                | [] => Ok []
                | theta :: l' =>
                    d ← get_dtr self img theta size scale multi_scale;
                    ds ← each l';
                    mret (d :: ds)
                end) thetas ≫= np_vstack;
      dtr_mean ← np_mean_axis0 dtrs;
      nrm ← np_linalg_norm_ord2 dtr_mean;
      mret (np_divide_scalar dtr_mean nrm)
  | AngleOther _ => Raise (Exception "invalid data type in angle")
  end.

(** [DTR.get_dtr_multifiles]. *)
Definition get_dtr_multifiles (self : pyobj) (imgfiles : list string)
    (angle : angle_arg) (size : option Z) (scale : option R)
  : result ndarray :=
  comprehension
    (fun imgfile => get_dtr self (ImgPath imgfile) angle size scale false)
    imgfiles ≫= np_vstack.

End Pipeline.

(** [DTR.sim], on vectors. *)
Definition sim (self : pyobj) (x y : list fl) : result fl :=
  d ← np_dot x y;
  mret (fl_div d (fl_mul (vector_norm2 x) (vector_norm2 y))).

(** [DTR.get_mean_dtrs]. *)
Definition get_mean_dtrs (self : pyobj) (dtrs : ndarray)
    (cases : list string) (df : df_arg)
  : result (ndarray * list string * df_arg) :=
  let u_cases := np_sort (np_unique cases) in
  means ← comprehension
            (fun case =>
               np_select_rows dtrs (np_equal_mask cases case) ≫= np_mean_axis0)
            u_cases;
  dtrs_mean ← np_vstack means;
  nrm ← np_linalg_norm_ord2 dtrs_mean;
  let dtrs_mean := np_divide_scalar dtrs_mean nrm in
  let medoid_dict := get_medoid dtrs cases in
  df_mean ← match df with
            | DfNone => Ok DfNone
            | DfList l =>
                picked ← comprehension
                           (fun case => dict_get medoid_dict case ≫= list_get l)
                           u_cases;
                mret (DfList picked)
            | DfFrame rows =>
                idx ← comprehension (dict_get medoid_dict) u_cases;
                picked ← comprehension (list_get rows) idx;
                mret (DfFrame picked)
            end;
  mret (dtrs_mean, u_cases, df_mean).

End DTR.

(** ** Notions used in the statements *)

Definition uniform (m : nat) (l : list (list fl)) : Prop :=
  Forall (fun r => length r = m) l.

Definition string_le (a b : string) : Prop := String.leb a b = true.

(** Strictly ascending: the order of [np.unique]. *)
Definition string_lt (a b : string) : Prop :=
  String.leb a b = true /\ a <> b.

(** The rows of [rows] whose label in [cases] is [c]. *)
Definition rows_labelled (cases : list string) (rows : list (list fl))
    (c : string) : list (list fl) :=
  map snd (filter (fun p => fst p = c) (zip cases rows)).

Definition column (rows : list (list fl)) (j : nat) : list fl :=
  map (fun r => nth j r NaN) rows.

(** The arithmetic mean of [rows], entry by entry. *)
Definition mean_row (m : nat) (rows : list (list fl)) : list fl :=
  tabulate m (fun j => fl_div (fsum (column rows j)) (fl_of_nat (length rows))).

(** The per-group means, in the order of [np.unique]. *)
Definition group_means (m : nat) (cases : list string)
    (rows : list (list fl)) : list (list fl) :=
  map (fun c => mean_row m (rows_labelled cases rows c)) (np_unique cases).

Definition stacked_means (m : nat) (cases : list string)
    (rows : list (list fl)) : ndarray :=
  {| shape := [length (np_unique cases); m];
     data := concat (group_means m cases rows) |}.

Definition aligned_df (n : nat) (df : df_arg) : Prop :=
  match df with
  | DfNone => True
  | DfList l => length l = n
  | DfFrame rows => length rows = n
  end.

Definition medoid_index (dtrs : ndarray) (cases : list string) (c : string)
  : nat :=
  default 0%nat (get_medoid dtrs cases !! c).

(** The attribute rows at the medoids, in the order of the labels. *)
Definition medoid_rows (dtrs : ndarray) (cases : list string) (df : df_arg)
  : df_arg :=
  match df with
  | DfNone => DfNone
  | DfList l =>
      DfList (map (fun c => nth (medoid_index dtrs cases c) l "")
                  (np_unique cases))
  | DfFrame rows =>
      DfFrame (map (fun c => nth (medoid_index dtrs cases c) rows [])
                   (np_unique cases))
  end.

Definition Rdot (x y : list R) : R := Rsum (zip_with Rmult x y).


(** Entry [(b, c, h, w)] of a 4-D tensor and entry [(i, j)] of a matrix. *)
Definition entry4 (t : Tensor) (b c h w : nat) : fl :=
  match shape t with
  | [_; C; H; W] => at_flat (data t) (((b * C + c) * H + h) * W + w)%nat
  | _ => NaN
  end.

Definition entry2 (t : Tensor) (i j : nat) : fl :=
  match shape t with
  | [_; M] => at_flat (data t) (i * M + j)%nat
  | _ => NaN
  end.

(** The channel vector of pixel [(b, h, w)] against column [k] of a
    projection matrix. *)
Definition projection (x r : Tensor) (C : nat) (b h w k : nat) : fl :=
  fsum (tabulate C (fun c => fl_mul (entry4 x b c h w) (entry2 r c k))).

(** The Hadamard product of the two projections of a pixel. *)
Definition sketch (x r1 r2 : Tensor) (C : nat) (b h w k : nat) : fl :=
  fl_mul (projection x r1 C b h w k) (projection x r2 C b h w k).

(** The mean over the height, then over the width. *)
Definition pooled (x r1 r2 : Tensor) (C H W : nat) (b k : nat) : fl :=
  fl_div
    (fsum (tabulate W (fun w =>
       fl_div (fsum (tabulate H (fun h => sketch x r1 r2 C b h w k)))
              (fl_of_nat H))))
    (fl_of_nat W).

(** Three descriptors, the first two equal. *)
Definition example_dtrs : ndarray :=
  {| shape := [3; 2]%nat;
     data := [Fin 1; Fin 0; Fin 1; Fin 0; Fin 0; Fin 1] |}.

(** ** Tactics *)

(** Case analysis on the comparisons of reals left in a goal. *)
Ltac decide_reals :=
  repeat match goal with
         | |- context [Req_dec_T ?a ?b] =>
             destruct (Req_dec_T a b); try (exfalso; lra)
         | |- context [Rlt_dec ?a ?b] =>
             destruct (Rlt_dec a b); try (exfalso; lra)
         end.

(** One statement of [forward]. *)
Ltac forward_step :=
  cbn [shape data mbind result_bind mret result_ret as_int as_tensor
       int_eq_pyval unpack4 lookup list_lookup].

(** * Properties *)

Arguments random_signs : simpl never.

(** ** Results *)

Lemma bind_Ok {A B : Type} (m : result A) (f : A -> result B) (b : B) :
  m ≫= f = Ok b -> exists a, m = Ok a /\ f a = Ok b.
Proof. destruct m as [a|e]; simpl; [eauto | discriminate]. Qed.

Lemma bind_raises {A B : Type} (m : result A) (f : A -> result B) :
  raises m -> raises (m ≫= f).
Proof. destruct m; simpl; tauto. Qed.

Lemma bind_raises_cont {A B : Type} (m : result A) (f : A -> result B) :
  (forall a, raises (f a)) -> raises (m ≫= f).
Proof. intros H. destruct m; simpl; [apply H | exact I]. Qed.


(** ** Construction *)

Lemma features_block3 :
  index_from_end (take 16 vgg16_features) 2 ≫= out_channels = Ok 256%nat.
Proof. reflexivity. Qed.

Lemma features_block4 :
  index_from_end (take 23 vgg16_features) 2 ≫= out_channels = Ok 512%nat.
Proof. reflexivity. Qed.

(** What a construction that returns has assigned: the attribute
    [input_dim] and never [input_dim1]; a projection only where the
    argument was left out. *)
Lemma init_attributes arch layer dim rand_1 rand_2 device self :
  DTR.__init__ arch layer dim rand_1 rand_2 device = Ok self ->
  exists c : nat,
    arch = "vgg" /\
    (layer = "block3_conv3" /\ c = 256%nat \/
     layer = "block4_conv3" /\ c = 512%nat) /\
    self !! "input_dim" = Some (PInt (Z.of_nat c)) /\
    self !! "output_dim" = Some (PInt dim) /\
    self !! "input_dim1" = None /\
    self !! "rand_1" =
      match rand_1 with
      | None => Some (PArr (random_signs 128 c (Z.to_nat dim)))
      | Some _ => None
      end /\
    self !! "rand_2" =
      match rand_2 with
      | None => Some (PArr (random_signs 1997 c (Z.to_nat dim)))
      | Some _ => None
      end /\
    is_Some (self !! "prep") /\
    is_Some (self !! "device").
Proof.
  unfold DTR.__init__, getattr, setattr. intros H.
  destruct (String.eqb arch "vgg") eqn:Ha; [|discriminate].
  apply String.eqb_eq in Ha.
  assert (Hl : exists (i c : nat),
             (layer = "block3_conv3" /\ c = 256%nat /\ i = 16%nat \/
              layer = "block4_conv3" /\ c = 512%nat /\ i = 23%nat) /\
             (if String.eqb layer "block3_conv3" then Ok 16%nat
              else if String.eqb layer "block4_conv3" then Ok 23%nat
              else Raise (TypeError "exceptions must derive from BaseException"))
             = Ok i).
  { destruct (String.eqb layer "block3_conv3") eqn:H3.
    - apply String.eqb_eq in H3. exists 16%nat, 256%nat. split; [left|]; auto.
    - destruct (String.eqb layer "block4_conv3") eqn:H4.
      + apply String.eqb_eq in H4. exists 23%nat, 512%nat. split; [right|]; auto.
      + simpl in H. discriminate. }
  destruct Hl as (i & c & Hic & Hi).
  cbn [mbind result_bind] in H. rewrite Hi in H.
  rewrite lookup_insert_eq in H. cbn [mbind result_bind as_layers] in H.
  rewrite lookup_insert_eq in H. cbn [mbind result_bind as_layers] in H.
  assert (Hc : index_from_end (take i vgg16_features) 2 ≫= out_channels = Ok c).
  { destruct Hic as [(_ & -> & ->)|(_ & -> & ->)];
      [exact features_block3 | exact features_block4]. }
  cbn [mbind] in Hc. rewrite Hc in H. cbn [result_bind] in H.
  exists c. split; [exact Ha|]. split; [tauto|].
  assert (Hneg : (Z.of_nat c <? 0)%Z = false) by (apply Z.ltb_ge; lia).
  unfold as_dim, as_int in H.
  destruct rand_1, rand_2;
    repeat first
      [ rewrite lookup_insert_eq in H
      | rewrite lookup_insert_ne in H by done
      | rewrite Hneg in H
      | rewrite Nat2Z.id in H
      | progress cbn [mbind result_bind mret result_ret] in H
      | match type of H with
        | context [(dim <? 0)%Z] =>
            destruct (dim <? 0)%Z eqn:?; [discriminate|]
        end ];
    injection H as <-; simplify_map_eq; repeat split; eauto.
Qed.

Lemma init_returns layer dim rand_1 rand_2 device :
  layer = "block3_conv3" \/ layer = "block4_conv3" ->
  (0 <= dim)%Z ->
  exists self, DTR.__init__ "vgg" layer dim rand_1 rand_2 device = Ok self.
Proof.
  intros Hl Hd.
  assert (Hneg : (dim <? 0)%Z = false) by (apply Z.ltb_ge; lia).
  pose proof features_block3 as H3. pose proof features_block4 as H4.
  cbn [mbind] in H3, H4.
  unfold DTR.__init__, getattr, setattr, as_dim, as_int.
  destruct Hl as [-> | ->]; destruct rand_1, rand_2;
    repeat first
      [ rewrite lookup_insert_eq
      | rewrite lookup_insert_ne by done
      | rewrite Hneg
      | progress cbn [mbind result_bind mret result_ret String.eqb Ascii.eqb
                      Bool.eqb as_layers]
      | rewrite H3
      | rewrite H4
      | match goal with
        | |- context [(Z.of_nat ?n <? 0)%Z] =>
            replace (Z.of_nat n <? 0)%Z with false
              by (symmetry; apply Z.ltb_ge; lia)
        end ];
    eauto.
Qed.

Lemma default_returns : exists self, DTR.default = Ok self.
Proof. apply init_returns; [left; reflexivity | lia]. Qed.

(** ** Pooling: the attribute [input_dim1] *)



(** With the attribute assigned, the assertion is the channel check. *)
Lemma forward_channel_mismatch (self : pyobj) (bottom : Tensor)
    (b c h w : nat) (d : Z) :
  self !! "input_dim1" = Some (PInt d) ->
  shape bottom = [b; c; h; w] ->
  Z.of_nat c <> d ->
  DTR.forward self bottom = Raise AssertionError.
Proof.
  intros Hattr Hshape Hne. unfold DTR.forward, size_at, getattr.
  rewrite Hshape. cbn [lookup list_lookup mbind result_bind].
  rewrite Hattr. cbn [mbind result_bind int_eq_pyval].
  now rewrite (proj2 (Z.eqb_neq _ _) Hne).
Qed.



Lemma default_attributes :
  exists self : pyobj,
    DTR.default = Ok self /\
    self !! "input_dim" = Some (PInt 256) /\
    self !! "output_dim" = Some (PInt 1024) /\
    self !! "input_dim1" = None /\
    self !! "rand_1" = Some (PArr (random_signs 128 256 1024)) /\
    self !! "rand_2" = Some (PArr (random_signs 1997 256 1024)).
Proof.
  destruct default_returns as [self Hself]. exists self.
  split; [exact Hself|]. unfold DTR.default in Hself.
  destruct (init_attributes _ _ _ _ _ _ _ Hself)
    as (c & _ & [[_ ->] | [Hl _]] & Hin & Hout & Hmiss & H1 & H2 & _);
    [|discriminate].
  change (Z.to_nat 1024) with 1024%nat in H1, H2.
  change (Z.of_nat 256) with 256%Z in Hin.
  split; [exact Hin|]. split; [exact Hout|]. split; [exact Hmiss|].
  split; [exact H1 | exact H2].
Qed.




(** ** The default projections *)

Lemma randint2_fill_S (n : nat) (st : mt19937_state) :
  randint2_fill (S n) st
  = (Z.land (fst (mt19937_next st)) 1
       :: fst (randint2_fill n (snd (mt19937_next st))),
     snd (randint2_fill n (snd (mt19937_next st)))).
Proof.
  cbn [randint2_fill]. destruct (mt19937_next st) as [y st1].
  cbn [fst snd]. now destruct (randint2_fill n st1).
Qed.

Lemma randint2_fill_length (n : nat) (st : mt19937_state) :
  length (fst (randint2_fill n st)) = n.
Proof.
  revert st. induction n as [|n IH]; intros st; [reflexivity|].
  rewrite randint2_fill_S. cbn [fst length]. now rewrite IH.
Qed.

Lemma randint2_fill_bits (n : nat) (st : mt19937_state) :
  Forall (fun b => b = 0%Z \/ b = 1%Z) (fst (randint2_fill n st)).
Proof.
  revert st. induction n as [|n IH]; intros st; [constructor|].
  rewrite randint2_fill_S. cbn [fst]. constructor; [|apply IH].
  change 1%Z with (Z.ones 1). rewrite Z.land_ones by lia.
  pose proof (Z.mod_pos_bound (fst (mt19937_next st)) (2 ^ 1) ltac:(lia)).
  change (Z.ones 1) with 1%Z. lia.
Qed.

(** The generated array has the shape [[r, c]], [r * c] entries, and every
    entry is [1] or [-1]. *)
Lemma random_signs_shape (seed : Z) (r c : nat) :
  shape (random_signs seed r c) = [r; c] /\
  length (data (random_signs seed r c)) = (r * c)%nat.
Proof.
  unfold random_signs. cbn [shape data]. split; [reflexivity|].
  now rewrite length_map, randint2_fill_length.
Qed.

Lemma random_signs_entries (seed : Z) (r c : nat) :
  Forall (fun v => v = Fin 1 \/ v = Fin (-1)) (data (random_signs seed r c)).
Proof.
  unfold random_signs. cbn [data]. apply Forall_map.
  eapply Forall_impl; [apply randint2_fill_bits|].
  intros b [-> | ->]; [right | left]; reflexivity.
Qed.

Lemma first_draw_seed_128 :
  Z.land (fst (mt19937_next (mt19937_seed 128))) 1 = 0%Z.
Proof. vm_compute. reflexivity. Qed.

Lemma first_draw_seed_1997 :
  Z.land (fst (mt19937_next (mt19937_seed 1997))) 1 = 1%Z.
Proof. vm_compute. reflexivity. Qed.

(** The two default projections differ, already in their first entry. *)
Lemma default_projections_differ (r c : nat) :
  (0 < r * c)%nat -> random_signs 128 r c <> random_signs 1997 r c.
Proof.
  intros Hpos Heq.
  apply (f_equal (fun a => head (data a))) in Heq.
  unfold random_signs in Heq. cbn [data] in Heq.
  destruct (r * c)%nat as [|n]; [lia|].
  rewrite !randint2_fill_S in Heq. cbn [fst map head] in Heq.
  rewrite first_draw_seed_128, first_draw_seed_1997 in Heq.
  unfold fl_of_Z in Heq. injection Heq as Heq.
  apply eq_IZR in Heq. discriminate.
Qed.

(** The default engine holds two [256 x 1024] sign matrices, generated from
    the seeds 128 and 1997, and they are not the same matrix. *)
Lemma default_engine_projections :
  exists (self : pyobj) (m1 m2 : ndarray),
    DTR.default = Ok self /\
    getattr self "rand_1" = Ok (PArr m1) /\
    getattr self "rand_2" = Ok (PArr m2) /\
    m1 = random_signs 128 256 1024 /\
    m2 = random_signs 1997 256 1024 /\
    shape m1 = [256; 1024]%nat /\
    shape m2 = [256; 1024]%nat /\
    Forall (fun v => v = Fin 1 \/ v = Fin (-1)) (data m1) /\
    Forall (fun v => v = Fin 1 \/ v = Fin (-1)) (data m2) /\
    m1 <> m2.
Proof.
  destruct default_attributes as (self & Hself & _ & _ & _ & H1 & H2).
  exists self, (random_signs 128 256 1024), (random_signs 1997 256 1024).
  unfold getattr. rewrite H1, H2.
  split; [exact Hself|]. do 6 (split; [reflexivity|]).
  split; [apply random_signs_entries|].
  split; [apply random_signs_entries|].
  apply default_projections_differ. lia.
Qed.

(** ** The descriptor pipeline *)

Section PipelineFacts.

Variable Image_open_RGB : string -> result ndarray.
Variable cv2_resize_pixels :
  ndarray -> cv_arg -> option cv_arg -> option cv_arg -> result ndarray.
Variable ndimage_rotate : ndarray -> Z -> result ndarray.
Variable apply_transforms : list transform -> ndarray -> result Tensor.

Let resize := DTR.cv2_resize cv2_resize_pixels.
Let get_dtr :=
  DTR.get_dtr Image_open_RGB cv2_resize_pixels ndimage_rotate
              apply_transforms.

(** The quarter-scale copy is asked for with the keyword [dize]. *)
Lemma quarter_scale_resize_raises (x : ndarray) :
  resize x [("dize", CvNone); ("fx", CvRatio 0.25); ("fy", CvRatio 0.25)]
  = Raise (TypeError "invalid keyword argument for resize()").
Proof. reflexivity. Qed.

Lemma get_dtr_multi_scale_raises self img angle size scale :
  raises (get_dtr self img angle size scale true).
Proof.
  unfold get_dtr.
  destruct angle; cbn [DTR.get_dtr];
    (apply bind_raises_cont; intros x;
     apply bind_raises_cont; intros x';
     apply bind_raises; exact I).
Qed.


(** The pipeline hands the preprocessed image itself to [forward], not
    the features of the network: were [input_dim1] assigned, the three
    channels of an image would fail the assertion against the 256 or 512
    of [input_dim]. *)
Lemma get_dtr_passes_image_to_forward self (a : ndarray) (d : Z) :
  (forall ts y t, apply_transforms ts y = Ok t ->
                  exists h w, shape t = [3%nat; h; w]) ->
  self !! "input_dim1" = Some (PInt d) ->
  d <> 3%Z ->
  forall t, DTR.prepare apply_transforms self a = Ok t ->
  get_dtr self (ImgArray a) AngleNone None None false = Raise AssertionError.
Proof.
  intros Hprep Hattr Hd t Ht. unfold get_dtr. cbn [DTR.get_dtr mbind result_bind].
  rewrite Ht. cbn [mbind result_bind].
  unfold DTR.prepare in Ht.
  apply bind_Ok in Ht. destruct Ht as (prep & _ & Ht).
  apply bind_Ok in Ht. destruct Ht as (t0 & Ht0 & Ht).
  apply bind_Ok in Ht. destruct Ht as (dev & _ & Ht).
  injection Ht as <-.
  assert (Hshape : exists h w, shape t0 = [3%nat; h; w]).
  { destruct prep; try discriminate; eapply Hprep; exact Ht0. }
  destruct Hshape as (h & w & Hshape).
  rewrite (forward_channel_mismatch self (unsqueeze0 t0) 1 3 h w d Hattr);
    [reflexivity | unfold unsqueeze0; cbn [shape]; now rewrite Hshape | lia].
Qed.


(** C4.  With [multi_scale=True], [get_dtr] returns no vector on any
    engine: the quarter-scale resize is called with the keyword [dize]
    and raises, at the latest; for an array image that is not resized
    this is the error of the call. *)
Theorem get_dtr_multi_scale_returns_no_descriptor :
  forall (self : pyobj) img angle size scale,
    raises (get_dtr self img angle size scale true) /\
    forall a : ndarray,
      get_dtr self (ImgArray a) angle None None true
      = Raise (TypeError "invalid keyword argument for resize()").
Proof.
  intros self img angle size scale. split.
  - apply get_dtr_multi_scale_raises.
  - intros a. unfold get_dtr. destruct angle; reflexivity.
Qed.

End PipelineFacts.

(** ** Finite numbers *)

Lemma fsum_Fin (l : list R) : fsum (map Fin l) = Fin (Rsum l).
Proof.
  induction l as [|x l IH]; [reflexivity|].
  change (fsum (map Fin (x :: l))) with (fl_add (Fin x) (fsum (map Fin l))).
  now rewrite IH.
Qed.

Lemma zip_with_mul_Fin (x y : list R) :
  zip_with fl_mul (map Fin x) (map Fin y) = map Fin (zip_with Rmult x y).
Proof.
  revert y. induction x as [|a x IH]; intros [|b y]; simpl; try reflexivity.
  now rewrite IH.
Qed.

Lemma zip_with_self (x : list R) :
  zip_with Rmult x x = map (fun v => v * v) x.
Proof. induction x as [|a x IH]; simpl; [reflexivity | now rewrite IH]. Qed.

Lemma Rsum_squares_nonneg (x : list R) : 0 <= Rsum (map (fun v => v * v) x).
Proof.
  induction x as [|a x IH]; simpl; [lra|].
  pose proof (Rle_0_sqr a) as Ha. unfold Rsqr in Ha. lra.
Qed.

Lemma vector_norm2_Fin (x : list R) :
  vector_norm2 (map Fin x) = Fin (Rnorm x).
Proof.
  unfold vector_norm2, Rnorm.
  rewrite zip_with_mul_Fin, fsum_Fin, zip_with_self. simpl.
  destruct (Rlt_dec (Rsum (map (fun v => v * v) x)) 0) as [Hneg|_];
    [|reflexivity].
  pose proof (Rsum_squares_nonneg x). lra.
Qed.

Lemma Rnorm_nonneg (x : list R) : 0 <= Rnorm x.
Proof. apply sqrt_pos. Qed.

Lemma Rnorm_zero_entries (x : list R) :
  Rnorm x = 0 -> Forall (fun v => v = 0) x.
Proof.
  unfold Rnorm. intros H.
  apply sqrt_eq_0 in H; [|apply Rsum_squares_nonneg].
  induction x as [|a x IH]; [constructor|].
  simpl in H. pose proof (Rsum_squares_nonneg x) as Hx.
  pose proof (Rle_0_sqr a) as Ha. unfold Rsqr in Ha.
  assert (Ha0 : a * a = 0) by lra.
  constructor.
  - now apply Rsqr_0_uniq.
  - apply IH. lra.
Qed.

Lemma Rdot_zero_l (x y : list R) :
  Forall (fun v => v = 0) x -> Rdot x y = 0.
Proof.
  unfold Rdot. intros H. revert y.
  induction H as [|a x -> _ IH]; intros [|b y]; simpl; try reflexivity.
  rewrite IH. lra.
Qed.

Lemma Rdot_zero_r (x y : list R) :
  Forall (fun v => v = 0) y -> Rdot x y = 0.
Proof.
  unfold Rdot. intros H. revert x.
  induction H as [|b y -> _ IH]; intros [|a x]; simpl; try reflexivity.
  rewrite IH. lra.
Qed.

(** ** Cosine similarity *)

Lemma sim_Fin (self : pyobj) (x y : list R) :
  length x = length y ->
  DTR.sim self (map Fin x) (map Fin y)
  = Ok (fl_div (Fin (Rdot x y)) (Fin (Rnorm x * Rnorm y))).
Proof.
  intros Hlen. unfold DTR.sim, np_dot.
  rewrite !length_map, Hlen, Nat.eqb_refl.
  cbn [mbind result_bind mret result_ret].
  now rewrite zip_with_mul_Fin, fsum_Fin, !vector_norm2_Fin.
Qed.

Lemma sim_nonzero_norms (self : pyobj) (x y : list R) :
  length x = length y -> Rnorm x <> 0 -> Rnorm y <> 0 ->
  DTR.sim self (map Fin x) (map Fin y)
  = Ok (Fin (Rdot x y / (Rnorm x * Rnorm y))).
Proof.
  intros Hlen Hx Hy. rewrite (sim_Fin self x y Hlen). unfold fl_div.
  destruct (Req_dec_T (Rnorm x * Rnorm y) 0) as [H0|_]; [|reflexivity].
  apply Rmult_integral in H0. tauto.
Qed.

Lemma sim_zero_norm (self : pyobj) (x y : list R) :
  length x = length y -> Rnorm x = 0 \/ Rnorm y = 0 ->
  DTR.sim self (map Fin x) (map Fin y) = Ok NaN.
Proof.
  intros Hlen Hz. rewrite (sim_Fin self x y Hlen). unfold fl_div.
  assert (Hdot : Rdot x y = 0).
  { destruct Hz as [Hx|Hy].
    - now apply Rdot_zero_l, Rnorm_zero_entries.
    - now apply Rdot_zero_r, Rnorm_zero_entries. }
  assert (Hprod : Rnorm x * Rnorm y = 0)
    by (destruct Hz as [-> | ->]; lra).
  rewrite Hdot, Hprod.
  destruct (Req_dec_T 0 0) as [_|Hne]; [|lra].
  unfold R_sign. destruct (Req_dec_T 0 0) as [_|Hne]; [reflexivity | lra].
Qed.

(** C9, as the code has it.  On vectors of finite entries and one length,
    [sim] returns the cosine when both norms are non-zero; when a norm is
    zero it raises nothing and returns [NaN]. *)
Theorem sim_cosine_or_nan (self : pyobj) (x y : list R) :
  length x = length y ->
  (Rnorm x <> 0 -> Rnorm y <> 0 ->
   DTR.sim self (map Fin x) (map Fin y)
   = Ok (Fin (Rdot x y / (Rnorm x * Rnorm y)))) /\
  (Rnorm x = 0 \/ Rnorm y = 0 ->
   DTR.sim self (map Fin x) (map Fin y) = Ok NaN).
Proof.
  intros Hlen. split.
  - now apply sim_nonzero_norms.
  - now apply sim_zero_norm.
Qed.

Lemma sim_cosine_or_nan_witness :
  length [3; 4] = length [4; 3] /\
  DTR.sim ∅ (map Fin [3; 4]) (map Fin [4; 3])
  = Ok (Fin (Rdot [3; 4] [4; 3] / (Rnorm [3; 4] * Rnorm [4; 3]))).
Proof.
  split; [reflexivity|].
  apply (proj1 (sim_cosine_or_nan ∅ [3; 4] [4; 3] eq_refl)).
  - unfold Rnorm. simpl. apply Rgt_not_eq, sqrt_lt_R0. lra.
  - unfold Rnorm. simpl. apply Rgt_not_eq, sqrt_lt_R0. lra.
Defined.

(** C9, as stated, fails on a zero vector: the call is not flagged, it
    returns [NaN]. *)
Lemma sim_zero_norm_not_flagged :
  vector_norm2 [Fin 0; Fin 0] = Fin 0 /\
  DTR.sim ∅ [Fin 0; Fin 0] [Fin 1; Fin 2] = Ok NaN /\
  ~ raises (DTR.sim ∅ [Fin 0; Fin 0] [Fin 1; Fin 2]).
Proof.
  assert (Hn : Rnorm [0; 0] = 0).
  { unfold Rnorm. simpl. replace (0 * 0 + (0 * 0 + 0)) with 0 by lra.
    apply sqrt_0. }
  assert (Hs : DTR.sim ∅ [Fin 0; Fin 0] [Fin 1; Fin 2] = Ok NaN).
  { apply (sim_zero_norm ∅ [0; 0] [1; 2] eq_refl). now left. }
  split; [|split].
  - change [Fin 0; Fin 0] with (map Fin [0; 0]).
    now rewrite vector_norm2_Fin, Hn.
  - exact Hs.
  - rewrite Hs. simpl. tauto.
Qed.

(** ** Lists of equal blocks *)

Lemma tabulate_length {A : Type} (n : nat) (f : nat -> A) :
  length (tabulate n f) = n.
Proof. unfold tabulate. now rewrite length_map, length_seq. Qed.

Lemma tabulate_nth {A : Type} (n : nat) (f : nat -> A) (i : nat) (d : A) :
  (i < n)%nat -> nth i (tabulate n f) d = f i.
Proof.
  intros Hi. unfold tabulate.
  rewrite (nth_indep _ d (f 0%nat)) by (now rewrite length_map, length_seq).
  rewrite map_nth, seq_nth by exact Hi. reflexivity.
Qed.

Lemma tabulate_ext {A : Type} (n : nat) (f g : nat -> A) :
  (forall i, (i < n)%nat -> f i = g i) -> tabulate n f = tabulate n g.
Proof.
  intros H. unfold tabulate. apply map_ext_in. intros i Hi.
  apply in_seq in Hi. apply H. lia.
Qed.

Lemma tabulate_S {A : Type} (n : nat) (f : nat -> A) :
  tabulate (S n) f = f 0%nat :: tabulate n (fun i => f (S i)).
Proof. unfold tabulate. simpl. now rewrite <- seq_shift, map_map. Qed.

Lemma tabulate_map_nth {A : Type} (l : list A) (d : A) :
  tabulate (length l) (fun i => nth i l d) = l.
Proof.
  induction l as [|x l IH]; [reflexivity|].
  simpl length. rewrite tabulate_S. simpl. now rewrite IH.
Qed.

Lemma chunks_length (m k : nat) (d : list fl) : length (chunks m k d) = k.
Proof. apply tabulate_length. Qed.

Lemma chunks_concat (m : nat) (l : list (list fl)) :
  uniform m l -> chunks m (length l) (concat l) = l.
Proof.
  unfold chunks. induction 1 as [|r l Hr Hl IH]; [reflexivity|].
  simpl length. rewrite tabulate_S. simpl concat. f_equal.
  - rewrite Nat.mul_0_l, drop_0. now apply take_app_length'.
  - rewrite <- IH at 2. apply tabulate_ext. intros i _.
    replace (S i * m)%nat with (length r + i * m)%nat by (rewrite Hr; lia).
    now rewrite drop_app_add.
Qed.

Lemma chunks_uniform (m k : nat) (d : list fl) :
  length d = (k * m)%nat -> uniform m (chunks m k d).
Proof.
  intros Hd. unfold uniform, chunks, tabulate. apply Forall_map, Forall_forall.
  intros i Hi. apply elem_of_seq in Hi.
  rewrite length_take, length_drop, Hd. nia.
Qed.

Lemma uniform_concat_length (m : nat) (l : list (list fl)) :
  uniform m l -> length (concat l) = (length l * m)%nat.
Proof.
  induction 1 as [|r l Hr _ IH]; [reflexivity|].
  simpl. rewrite length_app, IH, Hr. lia.
Qed.

Lemma nth_concat_uniform (m : nat) (l : list (list fl)) (i j : nat) (d : fl) :
  uniform m l -> (j < m)%nat ->
  nth (i * m + j) (concat l) d = nth j (nth i l []) d.
Proof.
  intros Hl Hj. revert i. induction Hl as [|r l Hr _ IH]; intros i.
  - simpl concat. rewrite nth_overflow by (simpl; lia).
    replace (nth i [] []) with (@nil fl) by (destruct i; reflexivity).
    destruct j; reflexivity.
  - destruct i as [|i]; simpl.
    + rewrite app_nth1 by lia. reflexivity.
    + rewrite app_nth2 by lia.
      replace (m + i * m + j - length r)%nat with (i * m + j)%nat by lia.
      apply IH.
Qed.

(** ** Sorting strings *)

Lemma string_leb_refl (s : string) : String.leb s s = true.
Proof.
  unfold String.leb.
  replace (String.compare s s) with Eq; [reflexivity|].
  induction s as [|a s IH]; [reflexivity|].
  simpl. unfold Ascii.compare. now rewrite N.compare_refl.
Qed.

Lemma string_leb_trans (a b c : string) :
  String.leb a b = true -> String.leb b c = true -> String.leb a c = true.
Proof.
  unfold String.leb. revert b c.
  induction a as [|x a IH]; intros [|y b] [|z c]; simpl; try congruence.
  unfold Ascii.compare.
  destruct (N.compare_spec (Ascii.N_of_ascii x) (Ascii.N_of_ascii y)) as [Hxy|Hxy|Hxy];
    destruct (N.compare_spec (Ascii.N_of_ascii y) (Ascii.N_of_ascii z)) as [Hyz|Hyz|Hyz];
    try congruence; intros Hab Hbc.
  - rewrite Hxy, Hyz, N.compare_refl. now apply (IH b c).
  - rewrite Hxy. now rewrite (proj2 (N.compare_lt_iff _ _) Hyz).
  - rewrite <- Hyz. now rewrite (proj2 (N.compare_lt_iff _ _) Hxy).
  - now rewrite (proj2 (N.compare_lt_iff _ _) (N.lt_trans _ _ _ Hxy Hyz)).
Qed.

Lemma insert_sorted_In (s x : string) (l : list string) :
  In x (insert_sorted s l) <-> x = s \/ In x l.
Proof.
  induction l as [|y l IH]; simpl; [intuition congruence|].
  destruct (String.leb s y); simpl; [intuition congruence|].
  rewrite IH. intuition congruence.
Qed.

Lemma insert_sorted_sorted (s : string) (l : list string) :
  StronglySorted string_le l -> StronglySorted string_le (insert_sorted s l).
Proof.
  induction 1 as [|y l Hl IH Hy]; simpl.
  - constructor; constructor.
  - destruct (String.leb s y) eqn:Hsy.
    + constructor; [now constructor|].
      constructor; [exact Hsy|].
      eapply Forall_impl; [exact Hy|].
      intros z Hz. now apply (string_leb_trans s y z).
    + constructor; [exact IH|].
      apply Forall_forall. intros z Hz.
      apply list_elem_of_In in Hz. rewrite insert_sorted_In in Hz.
      destruct Hz as [->|Hz].
      * destruct (String.leb_total s y) as [H|H]; [congruence | exact H].
      * rewrite Forall_forall in Hy. apply Hy. now apply list_elem_of_In.
Qed.

Lemma np_sort_In (x : string) (l : list string) :
  In x (np_sort l) <-> In x l.
Proof.
  induction l as [|y l IH]; simpl; [tauto|].
  rewrite insert_sorted_In, IH. intuition congruence.
Qed.

Lemma np_sort_sorted (l : list string) : StronglySorted string_le (np_sort l).
Proof.
  induction l as [|y l IH]; simpl; [constructor|].
  now apply insert_sorted_sorted.
Qed.

Lemma drop_adjacent_duplicates_In (x : string) (l : list string) :
  In x (drop_adjacent_duplicates l) <-> In x l.
Proof.
  induction l as [|y l IH]; [simpl; tauto|].
  destruct l as [|z l]; [simpl; tauto|].
  change (drop_adjacent_duplicates (y :: z :: l))
    with (if String.eqb y z then drop_adjacent_duplicates (z :: l)
          else y :: drop_adjacent_duplicates (z :: l)).
  destruct (String.eqb y z) eqn:Hyz.
  - apply String.eqb_eq in Hyz. subst z. rewrite IH. simpl. tauto.
  - simpl In at 1. rewrite IH. simpl. tauto.
Qed.

Lemma drop_adjacent_duplicates_sorted (l : list string) :
  StronglySorted string_le l ->
  StronglySorted string_lt (drop_adjacent_duplicates l).
Proof.
  induction 1 as [|y l Hl IH Hy]; [constructor|].
  destruct l as [|z l]; [constructor; constructor|].
  change (drop_adjacent_duplicates (y :: z :: l))
    with (if String.eqb y z then drop_adjacent_duplicates (z :: l)
          else y :: drop_adjacent_duplicates (z :: l)).
  destruct (String.eqb y z) eqn:Hyz; [exact IH|].
  apply String.eqb_neq in Hyz.
  constructor; [exact IH|].
  apply Forall_forall. intros w Hw.
  apply list_elem_of_In in Hw. rewrite drop_adjacent_duplicates_In in Hw.
  rewrite Forall_forall in Hy.
  pose proof (Hy w (proj2 (list_elem_of_In _ _) Hw)) as Hyw.
  split; [exact Hyw|]. intros <-.
  (* y occurs again after z: then z = y by antisymmetry *)
  apply Hyz. destruct Hw as [Hw|Hw]; [congruence|].
  apply String.leb_antisym.
  - apply Hy. left.
  - inversion Hl as [|? ? _ Hz]; subst.
    rewrite Forall_forall in Hz. apply Hz. now apply list_elem_of_In.
Qed.

Lemma np_unique_In (x : string) (l : list string) :
  In x (np_unique l) <-> In x l.
Proof. unfold np_unique. now rewrite drop_adjacent_duplicates_In, np_sort_In. Qed.

Lemma np_unique_sorted (l : list string) : StronglySorted string_lt (np_unique l).
Proof. apply drop_adjacent_duplicates_sorted, np_sort_sorted. Qed.

Lemma np_sort_of_sorted (l : list string) :
  StronglySorted string_lt l -> np_sort l = l.
Proof.
  induction 1 as [|y l Hl IH Hy]; [reflexivity|].
  simpl. rewrite IH. destruct l as [|z l]; [reflexivity|].
  simpl. inversion Hy as [|? ? [Hyz _] _]; subst. now rewrite Hyz.
Qed.

Lemma np_sort_np_unique (l : list string) : np_sort (np_unique l) = np_unique l.
Proof. apply np_sort_of_sorted, np_unique_sorted. Qed.

Lemma np_unique_NoDup (l : list string) : NoDup (np_unique l).
Proof.
  pose proof (np_unique_sorted l) as H.
  induction H as [|y u Hu IH Hy]; constructor; [|exact IH].
  intros Hin. rewrite Forall_forall in Hy. destruct (Hy y Hin) as [_ Hne].
  now apply Hne.
Qed.

(** ** Group means *)

Lemma mask_select_labelled (cases : list string) (rows : list (list fl))
    (c : string) :
  mask_select (np_equal_mask cases c) rows = rows_labelled cases rows c.
Proof.
  unfold mask_select, rows_labelled, np_equal_mask.
  revert rows. induction cases as [|x cases IH]; intros [|r rows];
    try reflexivity.
  simpl. rewrite !filter_cons. simpl.
  destruct (String.eqb x c) eqn:Hxc.
  - apply String.eqb_eq in Hxc. subst x.
    rewrite !decide_True by reflexivity. simpl. now rewrite IH.
  - apply String.eqb_neq in Hxc.
    rewrite decide_False by discriminate.
    rewrite decide_False by exact Hxc. apply IH.
Qed.

Lemma rows_labelled_uniform (m : nat) cases rows c :
  uniform m rows -> uniform m (rows_labelled cases rows c).
Proof.
  unfold uniform, rows_labelled. intros H. revert cases.
  induction H as [|r rows Hr _ IH]; intros [|x cases]; try constructor.
  simpl. rewrite filter_cons. simpl. destruct (decide (x = c)); simpl.
  - constructor; [exact Hr | apply IH].
  - apply IH.
Qed.

Lemma np_select_rows_matrix (n m : nat) (d : list fl) (mask : list bool) :
  length mask = n ->
  np_select_rows {| shape := [n; m]; data := d |} mask
  = Ok {| shape := [length (mask_select mask (chunks m n d)); m];
          data := concat (mask_select mask (chunks m n d)) |}.
Proof.
  intros Hmask. unfold np_select_rows. simpl shape.
  rewrite Hmask, Nat.eqb_refl.
  replace (numel [m]) with m by (simpl; lia). reflexivity.
Qed.

Lemma tabulate_nth_map {A B : Type} (f : A -> B) (l : list A) (d : A) :
  tabulate (length l) (fun i => f (nth i l d)) = map f l.
Proof.
  rewrite <- (tabulate_map_nth l d) at 2.
  unfold tabulate. now rewrite map_map.
Qed.

Lemma np_mean_axis0_matrix (m : nat) (rows : list (list fl)) :
  uniform m rows ->
  np_mean_axis0 {| shape := [length rows; m]; data := concat rows |}
  = Ok {| shape := [m]; data := mean_row m rows |}.
Proof.
  intros Hrows. unfold np_mean_axis0, mean_row. cbn [shape data].
  replace (numel [m]) with m by (simpl; lia).
  do 2 f_equal. apply tabulate_ext. intros j Hj. f_equal. f_equal.
  unfold column. rewrite <- (tabulate_nth_map (fun r => nth j r NaN) rows []).
  apply tabulate_ext. intros i _. unfold at_flat.
  now apply nth_concat_uniform.
Qed.

Lemma mean_row_length (m : nat) (rows : list (list fl)) :
  length (mean_row m rows) = m.
Proof. apply tabulate_length. Qed.

Lemma comprehension_map {A B : Type} (f : A -> result B) (g : A -> B)
    (l : list A) :
  (forall x, In x l -> f x = Ok (g x)) -> comprehension f l = Ok (map g l).
Proof.
  induction l as [|x l IH]; intros H; [reflexivity|].
  simpl. rewrite (H x) by now left. cbn [mbind result_bind].
  rewrite IH by (intros y Hy; apply H; now right). reflexivity.
Qed.

Lemma np_concatenate_onto_rows (m : nat) (l : list (list fl)) :
  forall (k : nat) (d : list fl),
    np_concatenate_onto {| shape := [k; m]; data := d |}
      (map (fun r => {| shape := [1%nat; m]; data := r |}) l)
    = Ok {| shape := [(k + length l)%nat; m]; data := d ++ concat l |}.
Proof.
  induction l as [|r l IH]; intros k d.
  - simpl. now rewrite Nat.add_0_r, app_nil_r.
  - simpl map. cbn [np_concatenate_onto]. unfold np_concatenate2.
    cbn [shape data].
    rewrite decide_True by reflexivity. cbn [mbind result_bind].
    rewrite IH. f_equal. f_equal.
    + f_equal. simpl. lia.
    + simpl. now rewrite <- app_assoc.
Qed.

Lemma np_vstack_rows (m : nat) (r : list fl) (l : list (list fl)) :
  np_vstack (map (fun r => {| shape := [m]; data := r |}) (r :: l))
  = Ok {| shape := [length (r :: l); m]; data := concat (r :: l) |}.
Proof.
  unfold np_vstack. rewrite map_map. simpl map.
  unfold np_concatenate. simpl shape.
  change (map (fun x => np_atleast_2d {| shape := [m]; data := x |}) l)
    with (map (fun x => {| shape := [1%nat; m]; data := x |}) l).
  unfold np_atleast_2d at 1. simpl.
  now rewrite np_concatenate_onto_rows.
Qed.

(** ** Medoids *)

Lemma group_members_spec (cases : list string) (c : string) (i : nat) :
  In i (group_members cases c) <-> cases !! i = Some c.
Proof.
  unfold group_members. rewrite <- list_elem_of_In, list_elem_of_filter.
  rewrite elem_of_seq. split; [tauto|].
  intros H. split; [exact H|]. apply lookup_lt_Some in H. lia.
Qed.

Lemma group_members_nonempty (cases : list string) (c : string) :
  In c cases -> group_members cases c <> [].
Proof.
  intros Hc Hnil. apply list_elem_of_In, list_elem_of_lookup in Hc.
  destruct Hc as [i Hi]. apply group_members_spec in Hi.
  rewrite Hnil in Hi. exact Hi.
Qed.

Lemma group_members_ascending (cases : list string) (c : string) :
  StronglySorted lt (group_members cases c).
Proof.
  unfold group_members. generalize 0%nat.
  induction (length cases) as [|k IH]; intros s; [constructor|].
  simpl seq. rewrite filter_cons.
  assert (Hs : Forall (lt s) (filter (fun i => cases !! i = Some c) (seq (S s) k))).
  { apply Forall_forall. intros j Hj.
    apply list_elem_of_filter in Hj. destruct Hj as [_ Hj].
    apply elem_of_seq in Hj. lia. }
  destruct (decide (cases !! s = Some c)); [constructor; auto | auto].
Qed.

Lemma first_argmax_In (score : nat -> fl) (l : list nat) (b : nat) :
  In (first_argmax score b l) (b :: l).
Proof.
  revert b. induction l as [|j l IH]; intros b; [now left|].
  simpl first_argmax.
  destruct (IH (if fl_ltb (score b) (score j) then j else b)) as [H|H].
  - destruct (fl_ltb (score b) (score j)); rewrite <- H; simpl; tauto.
  - right. now right.
Qed.

(** The selected position splits the candidates: strictly smaller scores
    before it, none larger after it. *)
Lemma first_argmax_split (score : nat -> fl) (s : nat -> R) (l : list nat) :
  forall b : nat,
    (forall j, In j (b :: l) -> score j = Fin (s j)) ->
    exists l1 l2 : list nat,
      b :: l = l1 ++ first_argmax score b l :: l2 /\
      (forall j, In j l1 -> s j < s (first_argmax score b l)) /\
      (forall j, In j l2 -> s j <= s (first_argmax score b l)).
Proof.
  induction l as [|j l IH]; intros b Hfin.
  - exists [], []. simpl. repeat split; intros ? [].
  - simpl first_argmax.
    rewrite (Hfin b) by now left. rewrite (Hfin j) by (right; now left).
    simpl fl_ltb. destruct (Rlt_dec (s b) (s j)) as [Hlt|Hge].
    + destruct (IH j) as (l1 & l2 & Heq & H1 & H2).
      { intros k Hk. apply Hfin. now right. }
      set (r := first_argmax score j l) in *.
      exists (b :: l1), l2. split; [simpl; now rewrite Heq|].
      split; [|exact H2].
      intros k [<-|Hk]; [|now apply H1].
      assert (Hj : In j (l1 ++ r :: l2)) by (rewrite <- Heq; now left).
      apply in_app_or in Hj. destruct Hj as [Hj|[Hj|Hj]].
      * specialize (H1 j Hj). lra.
      * rewrite Hj. exact Hlt.
      * specialize (H2 j Hj). lra.
    + destruct (IH b) as (l1 & l2 & Heq & H1 & H2).
      { intros k [<-|Hk]; apply Hfin; [now left | right; now right]. }
      set (r := first_argmax score b l) in *.
      destruct l1 as [|b' l1]; simpl in Heq; injection Heq as Hb Hl.
      * exists [], (j :: l2). split; [simpl; now rewrite Hb, Hl|].
        split; [intros ? []|].
        intros k [<-|Hk]; [rewrite <- Hb; lra | now apply H2].
      * subst b'. exists (b :: j :: l1), l2.
        split; [simpl; now rewrite Hl|]. split; [|exact H2].
        assert (Hbr : s b < s r) by (apply H1; now left).
        intros k [<-|[<-|Hk]]; [exact Hbr | lra | apply H1; now right].
Qed.

Lemma get_medoid_lookup (dtrs : ndarray) (cases : list string) (c : string) :
  In c cases ->
  get_medoid dtrs cases !! c
  = medoid_of (rows_of dtrs) (group_members cases c).
Proof.
  intros Hc. unfold get_medoid.
  apply np_unique_In in Hc. pose proof (np_unique_NoDup cases) as Hnd.
  induction Hnd as [|x u Hx Hnd IH]; [destruct Hc|].
  simpl omap.
  destruct (medoid_of (rows_of dtrs) (group_members cases x)) as [i|] eqn:Hm;
    simpl.
  - destruct (decide (x = c)) as [->|Hne].
    + now rewrite lookup_insert_eq, Hm.
    + rewrite lookup_insert_ne by exact Hne.
      apply IH. destruct Hc as [Hc|Hc]; [contradiction | exact Hc].
  - destruct (decide (x = c)) as [->|Hne].
    + rewrite Hm.
      apply not_elem_of_list_to_map_1. intros Hin.
      apply list_elem_of_fmap in Hin. destruct Hin as ([c' i'] & Hc' & Hin).
      simpl in Hc'. subst c'.
      apply list_elem_of_omap in Hin. destruct Hin as (y & Hy & Hfy).
      destruct (medoid_of (rows_of dtrs) (group_members cases y));
        simpl in Hfy; [|discriminate].
      injection Hfy as -> _. apply Hx. now apply list_elem_of_In.
    + apply IH. destruct Hc as [Hc|Hc]; [contradiction | exact Hc].
Qed.

Lemma medoid_of_member (rows : list (list fl)) (members : list nat) :
  members <> [] ->
  exists i, medoid_of rows members = Some i /\ In i members.
Proof.
  destruct members as [|b l]; [congruence|]. intros _.
  eexists. split; [reflexivity|]. apply first_argmax_In.
Qed.

(** ** [get_mean_dtrs] *)

Lemma medoid_in_group (dtrs : ndarray) (cases : list string) (c : string) :
  In c cases ->
  get_medoid dtrs cases !! c = Some (medoid_index dtrs cases c) /\
  cases !! medoid_index dtrs cases c = Some c.
Proof.
  intros Hc. unfold medoid_index.
  rewrite (get_medoid_lookup dtrs cases c Hc).
  destruct (medoid_of_member (rows_of dtrs) (group_members cases c))
    as (i & Hi & Hin); [now apply group_members_nonempty|].
  rewrite Hi. simpl. split; [reflexivity|]. now apply group_members_spec.
Qed.

Lemma list_get_nth {A : Type} (l : list A) (i : nat) (d : A) :
  (i < length l)%nat -> list_get l i = Ok (nth i l d).
Proof.
  intros Hi. unfold list_get.
  destruct (l !! i) as [x|] eqn:Hx.
  - f_equal. symmetry. now apply nth_lookup_Some.
  - apply lookup_ge_None in Hx. lia.
Qed.

Lemma np_linalg_norm_ord2_matrix (n m : nat) (d : list fl) :
  exists nrm, np_linalg_norm_ord2 {| shape := [n; m]; data := d |} = Ok nrm.
Proof.
  unfold np_linalg_norm_ord2. cbn [shape data].
  destruct (forallb is_finiteb d); eauto.
Qed.

Lemma group_means_uniform (m : nat) cases rows :
  uniform m (group_means m cases rows).
Proof.
  unfold uniform, group_means. apply Forall_map, Forall_forall.
  intros c _. apply mean_row_length.
Qed.

Lemma get_mean_dtrs_returns (self : pyobj) (n m : nat) (d : list fl)
    (cases : list string) (df : df_arg) :
  length d = (n * m)%nat -> length cases = n -> cases <> [] ->
  aligned_df n df ->
  let dtrs := {| shape := [n; m]; data := d |} in
  let stacked := stacked_means m cases (chunks m n d) in
  exists nrm : fl,
    np_linalg_norm_ord2 stacked = Ok nrm /\
    DTR.get_mean_dtrs self dtrs cases df
    = Ok (np_divide_scalar stacked nrm, np_unique cases,
          medoid_rows dtrs cases df).
Proof.
  intros Hd Hcases Hne Hdf dtrs stacked.
  destruct (np_linalg_norm_ord2_matrix (length (np_unique cases)) m
              (concat (group_means m cases (chunks m n d)))) as [nrm Hnrm].
  change (np_linalg_norm_ord2 stacked = Ok nrm) in Hnrm.
  exists nrm. split; [exact Hnrm|].
  unfold DTR.get_mean_dtrs. rewrite np_sort_np_unique.
  rewrite (comprehension_map _
             (fun c => {| shape := [m];
                          data := mean_row m (rows_labelled cases (chunks m n d) c) |})).
  2:{ intros c _. unfold dtrs.
      rewrite np_select_rows_matrix
        by (unfold np_equal_mask; now rewrite length_map).
      cbn [mbind result_bind]. rewrite mask_select_labelled.
      apply np_mean_axis0_matrix, rows_labelled_uniform.
      now apply chunks_uniform. }
  cbn [mbind result_bind].
  assert (Hstack :
            np_vstack
              (map (fun c => {| shape := [m];
                                data := mean_row m (rows_labelled cases (chunks m n d) c) |})
                   (np_unique cases))
            = Ok stacked).
  { unfold stacked, stacked_means.
    replace (length (np_unique cases))
      with (length (group_means m cases (chunks m n d)))
      by (unfold group_means; now rewrite length_map).
    rewrite <- (map_map (fun c => mean_row m (rows_labelled cases (chunks m n d) c))
                        (fun r => {| shape := [m]; data := r |})).
    fold (group_means m cases (chunks m n d)).
    destruct (group_means m cases (chunks m n d)) as [|r l] eqn:Hgm.
    - exfalso. apply (f_equal (@length _)) in Hgm.
      unfold group_means in Hgm. rewrite length_map in Hgm.
      destruct cases as [|c0 cases']; [congruence|].
      assert (Hin : In c0 (np_unique (c0 :: cases')))
        by (apply np_unique_In; now left).
      destruct (np_unique (c0 :: cases')); [destruct Hin | discriminate].
    - apply np_vstack_rows. }
  rewrite Hstack. cbn [mbind result_bind].
  rewrite Hnrm. cbn [mbind result_bind].
  assert (Hmed : forall c, In c (np_unique cases) ->
            dict_get (get_medoid dtrs cases) c = Ok (medoid_index dtrs cases c) /\
            (medoid_index dtrs cases c < n)%nat).
  { intros c Hc. apply (proj1 (np_unique_In c cases)) in Hc.
    destruct (medoid_in_group dtrs cases c Hc) as [Hget Hlab].
    unfold dict_get. rewrite Hget. split; [reflexivity|].
    apply lookup_lt_Some in Hlab. lia. }
  destruct df as [|l|rows]; simpl in Hdf; cbn [medoid_rows].
  - reflexivity.
  - rewrite (comprehension_map _
               (fun c => nth (medoid_index dtrs cases c) l "")).
    + reflexivity.
    + intros c Hc. destruct (Hmed c Hc) as [-> Hlt].
      cbn [mbind result_bind]. apply list_get_nth. lia.
  - rewrite (comprehension_map _ (medoid_index dtrs cases))
      by (intros c Hc; apply (Hmed c Hc)).
    cbn [mbind result_bind].
    rewrite (comprehension_map _ (fun i => nth i rows [])).
    + cbn [mbind result_bind mret result_ret]. now rewrite map_map.
    + intros i Hi. apply in_map_iff in Hi. destruct Hi as (c & <- & Hc).
      apply list_get_nth. destruct (Hmed c Hc) as [_ Hlt]. lia.
Qed.

Lemma rows_of_normalised (m : nat) cases rows nrm :
  rows_of (np_divide_scalar (stacked_means m cases rows) nrm)
  = map (map (fun v => fl_div v nrm)) (group_means m cases rows).
Proof.
  unfold rows_of, np_divide_scalar, stacked_means. cbn [shape data].
  replace (numel [m]) with m by (simpl; lia).
  rewrite concat_map.
  replace (length (np_unique cases))
    with (length (map (map (fun v => fl_div v nrm)) (group_means m cases rows)))
    by (unfold group_means; now rewrite !length_map).
  apply chunks_concat. unfold uniform. apply Forall_map.
  eapply Forall_impl; [apply group_means_uniform|].
  intros r Hr. simpl. now rewrite length_map.
Qed.

(** The 2-norm of a matrix with one entry. *)
Lemma Rnorm_singleton (y : R) : Rnorm [y] = Rabs y.
Proof.
  unfold Rnorm. simpl. rewrite Rplus_0_r.
  change (y * y) with (Rsqr y). apply sqrt_Rsqr_abs.
Qed.

Lemma largest_singular_value_is_lub (n m : nat) (a : list R) (s : R) :
  is_lub (unit_ball_image n m a) s -> largest_singular_value n m a = s.
Proof.
  intros Hs. unfold largest_singular_value.
  apply (is_lub_u (unit_ball_image n m a)); [|exact Hs].
  apply epsilon_spec. now exists s.
Qed.

Lemma largest_singular_value_1x1 (a : R) :
  largest_singular_value 1 1 [a] = Rabs a.
Proof.
  apply largest_singular_value_is_lub. split.
  - intros v (x & Hlen & Hx & ->).
    destruct x as [|x0 [|? ?]]; try discriminate.
    rewrite Rnorm_singleton in Hx.
    unfold Rmat_vec, tabulate.
    cbn [map seq Rsum fold_right nth Nat.mul Nat.add].
    rewrite Rnorm_singleton, Rplus_0_r, Rabs_mult.
    pose proof (Rabs_pos a). nra.
  - intros b Hb. apply Hb. exists [1]. split; [reflexivity|].
    rewrite Rnorm_singleton, Rabs_R1. split; [lra|].
    unfold Rmat_vec, tabulate.
    cbn [map seq Rsum fold_right nth Nat.mul Nat.add].
    now rewrite Rnorm_singleton, Rplus_0_r, Rmult_1_r.
Qed.

Lemma Rnorm_pair (x0 x1 : R) : Rnorm [x0; x1] = sqrt (x0 * x0 + x1 * x1).
Proof. unfold Rnorm. simpl. f_equal. lra. Qed.

Lemma largest_singular_value_identity2 :
  largest_singular_value 2 2 [1; 0; 0; 1] = 1.
Proof.
  apply largest_singular_value_is_lub.
  assert (Hid : forall x0 x1,
             Rnorm (Rmat_vec 2 2 [1; 0; 0; 1] [x0; x1]) = Rnorm [x0; x1]).
  { intros x0 x1. unfold Rmat_vec, tabulate.
    cbn [map seq Rsum fold_right nth Nat.mul Nat.add].
    rewrite !Rnorm_pair. f_equal. lra. }
  split.
  - intros v (x & Hlen & Hx & ->).
    destruct x as [|x0 [|x1 [|? ?]]]; try discriminate.
    now rewrite Hid.
  - intros b Hb. apply Hb. exists [1; 0].
    assert (H1 : Rnorm [1; 0] = 1).
    { rewrite Rnorm_pair. replace (1 * 1 + 0 * 0) with 1 by lra. apply sqrt_1. }
    split; [reflexivity|]. rewrite H1. split; [lra|]. now rewrite Hid.
Qed.

Lemma fl_div_Fin (x y : R) : y <> 0 -> fl_div (Fin x) (Fin y) = Fin (x / y).
Proof.
  intros Hy. unfold fl_div.
  destruct (Req_dec_T y 0) as [H0|_]; [contradiction | reflexivity].
Qed.

(** C5, as the code has it.  For an [N, M] matrix with [N >= 1] and [N]
    labels, [get_mean_dtrs] returns the distinct labels in strictly
    ascending order and a matrix with one row per distinct label, in that
    order; each row is the arithmetic mean of the rows carrying the label,
    divided by the norm of the whole stacked matrix of means. *)
Theorem get_mean_dtrs_sorted_normalised_means (self : pyobj) (n m : nat)
    (d : list fl) (cases : list string) (df : df_arg) :
  length d = (n * m)%nat -> length cases = n -> (0 < n)%nat ->
  aligned_df n df ->
  exists (means : ndarray) (nrm : fl) (df_mean : df_arg),
    DTR.get_mean_dtrs self {| shape := [n; m]; data := d |} cases df
    = Ok (means, np_unique cases, df_mean) /\
    StronglySorted string_lt (np_unique cases) /\
    (forall c, In c (np_unique cases) <-> In c cases) /\
    shape means = [length (np_unique cases); m] /\
    np_linalg_norm_ord2 (stacked_means m cases (chunks m n d)) = Ok nrm /\
    rows_of means
    = map (fun c =>
             map (fun v => fl_div v nrm)
                 (mean_row m (rows_labelled cases (chunks m n d) c)))
          (np_unique cases).
Proof.
  intros Hd Hcases Hn Hdf.
  assert (Hne : cases <> []) by (intros ->; simpl in Hcases; lia).
  destruct (get_mean_dtrs_returns self n m d cases df Hd Hcases Hne Hdf)
    as (nrm & Hnrm & Hret).
  eexists _, nrm, _. split; [exact Hret|].
  split; [apply np_unique_sorted|]. split; [intros c; apply np_unique_In|].
  split; [reflexivity|]. split; [exact Hnrm|].
  rewrite rows_of_normalised. unfold group_means. now rewrite map_map.
Qed.

Lemma get_mean_dtrs_sorted_normalised_means_witness :
  exists (means : ndarray) (nrm : fl) (df_mean : df_arg),
    DTR.get_mean_dtrs ∅ {| shape := [3; 2]%nat;
                           data := [Fin 1; Fin 2; Fin 3; Fin 4; Fin 5; Fin 6] |}
      ["b"; "a"; "b"] (DfList ["x"; "y"; "z"])
    = Ok (means, np_unique ["b"; "a"; "b"], df_mean) /\
    StronglySorted string_lt (np_unique ["b"; "a"; "b"]) /\
    (forall c, In c (np_unique ["b"; "a"; "b"]) <-> In c ["b"; "a"; "b"]) /\
    shape means = [length (np_unique ["b"; "a"; "b"]); 2%nat] /\
    np_linalg_norm_ord2
      (stacked_means 2 ["b"; "a"; "b"]
         (chunks 2 3 [Fin 1; Fin 2; Fin 3; Fin 4; Fin 5; Fin 6])) = Ok nrm /\
    rows_of means
    = map (fun c =>
             map (fun v => fl_div v nrm)
                 (mean_row 2
                    (rows_labelled ["b"; "a"; "b"]
                       (chunks 2 3 [Fin 1; Fin 2; Fin 3; Fin 4; Fin 5; Fin 6])
                       c)))
          (np_unique ["b"; "a"; "b"]).
Proof.
  apply (get_mean_dtrs_sorted_normalised_means ∅ 3 2
           [Fin 1; Fin 2; Fin 3; Fin 4; Fin 5; Fin 6] ["b"; "a"; "b"]
           (DfList ["x"; "y"; "z"])).
  - reflexivity.
  - reflexivity.
  - lia.
  - reflexivity.
Defined.

Lemma get_mean_dtrs_one_row :
  DTR.get_mean_dtrs ∅ {| shape := [1; 1]%nat; data := [Fin 2] |} ["A"] DfNone
  = Ok ({| shape := [1; 1]%nat; data := [Fin 1] |}, ["A"], DfNone).
Proof.
  destruct (get_mean_dtrs_returns ∅ 1 1 [Fin 2] ["A"] DfNone)
    as (nrm & Hnrm & ->); [reflexivity | reflexivity | discriminate | exact I |].
  assert (Hstack : stacked_means 1 ["A"] (chunks 1 1 [Fin 2])
                   = {| shape := [1; 1]%nat; data := [Fin 2] |}).
  { vm_compute. decide_reals. do 3 f_equal. lra. }
  rewrite Hstack in *.
  unfold np_linalg_norm_ord2 in Hnrm. cbn [shape data forallb is_finiteb] in Hnrm.
  simpl map in Hnrm. rewrite largest_singular_value_1x1 in Hnrm.
  injection Hnrm as <-. unfold np_divide_scalar. cbn [shape data map].
  rewrite Rabs_right by lra. rewrite fl_div_Fin by lra.
  replace (2 / 2) with 1 by lra. reflexivity.
Qed.

(** C5, as stated, fails: the row returned for a group is not the mean of
    its rows (here one row, [2], returned as [1]), and without rows there
    is no result. *)
Lemma get_mean_dtrs_row_is_not_the_mean :
  DTR.get_mean_dtrs ∅ {| shape := [1; 1]%nat; data := [Fin 2] |} ["A"] DfNone
  = Ok ({| shape := [1; 1]%nat; data := [Fin 1] |}, ["A"], DfNone) /\
  mean_row 1 (rows_labelled ["A"] [[Fin 2]] "A") = [Fin 2] /\
  [Fin 1] <> [Fin 2] /\
  DTR.get_mean_dtrs ∅ {| shape := [0; 1]%nat; data := [] |} [] DfNone
  = Raise (ValueError "need at least one array to concatenate").
Proof.
  split; [exact get_mean_dtrs_one_row|]. split; [|split].
  - vm_compute. decide_reals. do 2 f_equal. lra.
  - intros H. injection H as H. lra.
  - reflexivity.
Qed.

(** C6.  Two groups with the means [(1, 0)] and [(0, 1)]: the stacked
    matrix is returned unchanged, divided by its largest singular value 1,
    while the L2 norm of its four entries taken as one vector is [sqrt 2]. *)
Theorem get_mean_dtrs_divides_by_spectral_norm :
  let identity := {| shape := [2; 2]%nat;
                     data := [Fin 1; Fin 0; Fin 0; Fin 1] |} in
  DTR.get_mean_dtrs ∅ identity ["A"; "B"] DfNone
  = Ok (identity, ["A"; "B"], DfNone) /\
  np_linalg_norm_ord2 identity = Ok (Fin 1) /\
  vector_norm2 (data identity) = Fin (sqrt 2) /\
  np_divide_scalar identity (Fin (sqrt 2)) <> identity.
Proof.
  intros identity.
  assert (Hnorm : np_linalg_norm_ord2 identity = Ok (Fin 1)).
  { unfold np_linalg_norm_ord2, identity.
    cbn [shape data forallb is_finiteb andb]. simpl map.
    now rewrite largest_singular_value_identity2. }
  split; [|split; [exact Hnorm|split]].
  - destruct (get_mean_dtrs_returns ∅ 2 2 [Fin 1; Fin 0; Fin 0; Fin 1]
                ["A"; "B"] DfNone)
      as (nrm & Hnrm & Hret);
      [reflexivity | reflexivity | discriminate | exact I |].
    unfold identity at 1. rewrite Hret. clear Hret.
    assert (Hstack : stacked_means 2 ["A"; "B"]
                       (chunks 2 2 [Fin 1; Fin 0; Fin 0; Fin 1]) = identity).
    { vm_compute. decide_reals. repeat f_equal; lra. }
    rewrite Hstack in *. rewrite Hnorm in Hnrm. injection Hnrm as <-.
    unfold np_divide_scalar, identity. cbn [shape data map].
    rewrite !fl_div_Fin by lra.
    replace (1 / 1) with 1 by lra. replace (0 / 1) with 0 by lra.
    reflexivity.
  - unfold identity. cbn [data].
    change [Fin 1; Fin 0; Fin 0; Fin 1] with (map Fin [1; 0; 0; 1]).
    rewrite vector_norm2_Fin. unfold Rnorm. simpl. do 2 f_equal. lra.
  - unfold np_divide_scalar, identity. cbn [shape data map].
    intros H. injection H as H _ _ _.
    assert (Hs : sqrt 2 <> 0) by (apply Rgt_not_eq, sqrt_lt_R0; lra).
    destruct (Req_dec_T (sqrt 2) 0) as [H0|_]; [contradiction|].
    injection H as H.
    assert (H2 : sqrt 2 = 1).
    { apply (Rmult_eq_compat_r (sqrt 2)) in H.
      unfold Rdiv in H. rewrite Rmult_assoc, Rinv_l in H by exact Hs. lra. }
    pose proof (sqrt_sqrt 2 ltac:(lra)) as Hsq. rewrite H2 in Hsq. lra.
Qed.

(** ** The medoid of a group *)

Lemma fl_add_finite (a b : fl) :
  is_finite (fl_add a b) -> is_finite a /\ is_finite b.
Proof. destruct a, b; simpl; tauto. Qed.

Lemma fsum_finite (l : list fl) :
  is_finite (fsum l) ->
  Forall is_finite l /\ fsum l = Fin (fl_real (fsum l)).
Proof.
  intros H. split.
  - induction l as [|a l IH]; [constructor|].
    change (fsum (a :: l)) with (fl_add a (fsum l)) in H.
    apply fl_add_finite in H. destruct H as [Ha Hl].
    constructor; [exact Ha | now apply IH].
  - destruct (fsum l); simpl in *; tauto.
Qed.

Lemma Forall_finite_fsum (l : list fl) :
  Forall is_finite l -> is_finite (fsum l).
Proof.
  induction 1 as [|a l Ha _ IH]; [exact I|].
  change (fsum (a :: l)) with (fl_add a (fsum l)).
  destruct a, (fsum l); simpl in *; tauto.
Qed.

Lemma fsum_complement (l : list fl) :
  Forall is_finite l ->
  fsum (map (fl_sub (Fin 1)) l)
  = Fin (INR (length l) - fl_real (fsum l)).
Proof.
  induction 1 as [|a l Ha Hl IH]; [simpl; f_equal; lra|].
  change (fsum (map (fl_sub (Fin 1)) (a :: l)))
    with (fl_add (fl_sub (Fin 1) a) (fsum (map (fl_sub (Fin 1)) l))).
  rewrite IH. change (fsum (a :: l)) with (fl_add a (fsum l)).
  apply Forall_finite_fsum in Hl.
  destruct a as [x| | |]; simpl in Ha; try tauto.
  destruct (fsum l) as [y| | |]; simpl in Hl; try tauto.
  change (length (Fin x :: l)) with (S (length l)).
  simpl fl_sub. simpl fl_add. simpl fl_real. rewrite S_INR. f_equal. lra.
Qed.

Lemma total_distance_complement rows members i :
  is_finite (total_similarity rows members i) ->
  total_distance rows members i
  = Fin (INR (length (filter (fun j => j <> i) members))
         - fl_real (total_similarity rows members i)).
Proof.
  unfold total_similarity, total_distance, cosine_distance. intros H.
  apply fsum_finite in H. destruct H as [Hall _].
  rewrite <- (length_map (fun j => cosine_similarity (row_at rows i) (row_at rows j))).
  rewrite <- fsum_complement by exact Hall.
  now rewrite map_map.
Qed.

Lemma StronglySorted_lt_after (l1 l2 : list nat) (x : nat) :
  StronglySorted lt (l1 ++ x :: l2) -> Forall (lt x) l2.
Proof.
  induction l1 as [|a l1 IH]; simpl; intros H.
  - now inversion H.
  - inversion H; subst. now apply IH.
Qed.

Lemma StronglySorted_lt_NoDup (l : list nat) :
  StronglySorted lt l -> NoDup l.
Proof.
  induction 1 as [|a l _ IH Ha]; constructor; [|exact IH].
  intros Hin. rewrite Forall_forall in Ha. specialize (Ha a Hin). lia.
Qed.

Lemma filter_remove_length (l : list nat) (i : nat) :
  NoDup l -> In i l ->
  length (filter (fun j => j <> i) l) = (length l - 1)%nat.
Proof.
  induction 1 as [|a l Ha Hl IH]; intros Hi; [destruct Hi|].
  rewrite filter_cons. destruct (decide (a <> i)) as [Hne|Heq].
  - destruct Hi as [Hi|Hi]; [contradiction|].
    simpl. rewrite IH by exact Hi.
    destruct l; [destruct Hi | simpl; lia].
  - assert (a = i) by (destruct (decide (a = i)); tauto). subst a.
    assert (Hsame : filter (fun j => j <> i) l = l).
    { clear IH Hl Hi. induction l as [|b l IHl]; [reflexivity|].
      rewrite filter_cons.
      assert (b <> i) by (intros ->; apply Ha; now left).
      rewrite decide_True by assumption. f_equal. apply IHl.
      intros Hin. apply Ha. now right. }
    rewrite Hsame. simpl. lia.
Qed.

Lemma cosine_similarity_Fin (x y : list R) :
  Rnorm x <> 0 -> Rnorm y <> 0 ->
  cosine_similarity (map Fin x) (map Fin y)
  = Fin (Rdot x y / (Rnorm x * Rnorm y)).
Proof.
  intros Hx Hy. unfold cosine_similarity.
  rewrite zip_with_mul_Fin, fsum_Fin, !vector_norm2_Fin.
  apply fl_div_Fin. intros H0. apply Rmult_integral in H0. tauto.
Qed.

Lemma fl_ltb_irrefl (a : fl) : fl_ltb a a = false.
Proof.
  destruct a as [x| | |]; try reflexivity.
  simpl. destruct (Rlt_dec x x); [lra | reflexivity].
Qed.

Lemma Rnorm_unit_x : Rnorm [1; 0] = 1.
Proof.
  rewrite Rnorm_pair. replace (1 * 1 + 0 * 0) with 1 by lra. apply sqrt_1.
Qed.

(** Two equal descriptors with one label: both have the total similarity
    1, and the medoid is the first of them. *)
Lemma example_similarities :
  forall j, ["A"; "A"; "B"] !! j = Some "A" ->
    total_similarity (rows_of example_dtrs)
                     (group_members ["A"; "A"; "B"] "A") j = Fin 1.
Proof.
  assert (Hcos : cosine_similarity [Fin 1; Fin 0] [Fin 1; Fin 0] = Fin 1).
  { change [Fin 1; Fin 0] with (map Fin [1; 0]).
    rewrite cosine_similarity_Fin by (rewrite Rnorm_unit_x; lra).
    rewrite Rnorm_unit_x. unfold Rdot. simpl. f_equal. field. }
  change (rows_of example_dtrs)
    with [[Fin 1; Fin 0]; [Fin 1; Fin 0]; [Fin 0; Fin 1]].
  change (group_members ["A"; "A"; "B"] "A") with [0%nat; 1%nat].
  intros [|[|[|j]]] Hj; try discriminate.
  - unfold total_similarity.
    change (filter (fun j => j <> 0%nat) [0%nat; 1%nat]) with [1%nat].
    cbn [map row_at nth fsum fold_right]. rewrite Hcos. simpl. f_equal. lra.
  - unfold total_similarity.
    change (filter (fun j => j <> 1%nat) [0%nat; 1%nat]) with [0%nat].
    cbn [map row_at nth fsum fold_right]. rewrite Hcos. simpl. f_equal. lra.
Qed.

Lemma example_medoid :
  get_medoid example_dtrs ["A"; "A"; "B"] !! "A" = Some 0%nat.
Proof.
  rewrite get_medoid_lookup by (simpl; auto).
  change (group_members ["A"; "A"; "B"] "A") with [0%nat; 1%nat].
  unfold medoid_of, first_argmax.
  change [0%nat; 1%nat] with (group_members ["A"; "A"; "B"] "A").
  rewrite !example_similarities by reflexivity.
  now rewrite fl_ltb_irrefl.
Qed.

(** C7.  For a label that occurs, the medoid is an index into the whole
    input that carries the label, and the only member of a group of one.
    When the total similarities in the group are finite, no member has a
    larger total similarity, none has a smaller total distance, and every
    member of lower index has a strictly smaller total similarity. *)
Theorem get_medoid_selects_group_medoid (dtrs : ndarray)
    (cases : list string) (c : string) :
  In c cases ->
  exists i : nat,
    get_medoid dtrs cases !! c = Some i /\
    (i < length cases)%nat /\
    cases !! i = Some c /\
    (forall j, group_members cases c = [j] -> i = j) /\
    let similarity := total_similarity (rows_of dtrs) (group_members cases c) in
    let distance := total_distance (rows_of dtrs) (group_members cases c) in
    (forall j, cases !! j = Some c -> is_finite (similarity j)) ->
    forall j, cases !! j = Some c ->
      fl_ltb (similarity i) (similarity j) = false /\
      fl_ltb (distance j) (distance i) = false /\
      ((j < i)%nat -> fl_ltb (similarity j) (similarity i) = true).
Proof.
  intros Hc. exists (medoid_index dtrs cases c).
  destruct (medoid_in_group dtrs cases c Hc) as [Hget Hlab].
  split; [exact Hget|]. split; [now apply lookup_lt_Some in Hlab|].
  split; [exact Hlab|].
  rewrite (get_medoid_lookup dtrs cases c Hc) in Hget.
  pose proof (group_members_ascending cases c) as Hasc.
  set (members := group_members cases c) in *.
  set (i := medoid_index dtrs cases c) in *.
  split.
  { intros j Hj. rewrite Hj in Hget. simpl in Hget. congruence. }
  intros similarity distance Hfin j Hj.
  set (s := fun k => fl_real (similarity k)).
  assert (Hs : forall k, In k members -> similarity k = Fin (s k)).
  { intros k Hk. apply group_members_spec in Hk. specialize (Hfin k Hk).
    unfold s. destruct (similarity k); simpl in *; tauto. }
  assert (Hd : forall k, In k members ->
             distance k = Fin (INR (length members - 1) - s k)).
  { intros k Hk. unfold distance.
    rewrite total_distance_complement
      by (apply Hfin; now apply group_members_spec).
    rewrite filter_remove_length
      by (try apply StronglySorted_lt_NoDup; assumption).
    reflexivity. }
  assert (Hi : In i members) by now apply group_members_spec.
  apply group_members_spec in Hj. fold members in Hj.
  rewrite (Hs i Hi), (Hs j Hj), (Hd i Hi), (Hd j Hj). simpl fl_ltb.
  destruct members as [|b l] eqn:Hm; [destruct Hi|].
  simpl in Hget. injection Hget as Hget.
  destruct (first_argmax_split similarity s l b Hs)
    as (l1 & l2 & Heq & H1 & H2).
  fold similarity in Hget. rewrite Hget in Heq, H1, H2.
  assert (Hle : s j <= s i).
  { rewrite Heq in Hj. apply in_app_or in Hj.
    destruct Hj as [Hj|[<-|Hj]]; [specialize (H1 j Hj) | | specialize (H2 j Hj)];
      lra. }
  split; [|split].
  - destruct (Rlt_dec (s i) (s j)); [lra | reflexivity].
  - destruct (Rlt_dec (INR (length (b :: l) - 1) - s j)
                      (INR (length (b :: l) - 1) - s i)); [lra | reflexivity].
  - intros Hlt. rewrite Heq in Hasc, Hj.
    apply StronglySorted_lt_after in Hasc. rewrite Forall_forall in Hasc.
    apply in_app_or in Hj. destruct Hj as [Hj|[<-|Hj]].
    + specialize (H1 j Hj). destruct (Rlt_dec (s j) (s i)); [reflexivity | lra].
    + lia.
    + apply list_elem_of_In, Hasc in Hj. lia.
Qed.

Lemma get_medoid_selects_group_medoid_witness :
  In "A" ["A"; "A"; "B"] /\
  (forall j, ["A"; "A"; "B"] !! j = Some "A" ->
     is_finite (total_similarity (rows_of example_dtrs)
                  (group_members ["A"; "A"; "B"] "A") j)) /\
  exists i : nat,
    get_medoid example_dtrs ["A"; "A"; "B"] !! "A" = Some i /\
    (i < length ["A"; "A"; "B"])%nat /\
    ["A"; "A"; "B"] !! i = Some "A" /\
    (forall j, group_members ["A"; "A"; "B"] "A" = [j] -> i = j) /\
    let similarity :=
      total_similarity (rows_of example_dtrs)
                       (group_members ["A"; "A"; "B"] "A") in
    let distance :=
      total_distance (rows_of example_dtrs)
                     (group_members ["A"; "A"; "B"] "A") in
    forall j, ["A"; "A"; "B"] !! j = Some "A" ->
      fl_ltb (similarity i) (similarity j) = false /\
      fl_ltb (distance j) (distance i) = false /\
      ((j < i)%nat -> fl_ltb (similarity j) (similarity i) = true).
Proof.
  assert (Hin : In "A" ["A"; "A"; "B"]) by (simpl; auto).
  assert (Hfin : forall j, ["A"; "A"; "B"] !! j = Some "A" ->
            is_finite (total_similarity (rows_of example_dtrs)
                         (group_members ["A"; "A"; "B"] "A") j))
    by (intros j Hj; rewrite example_similarities by exact Hj; exact I).
  split; [exact Hin|]. split; [exact Hfin|].
  destruct (get_medoid_selects_group_medoid example_dtrs ["A"; "A"; "B"] "A"
              Hin) as (i & Hget & Hlt & Hlab & Hone & Hbest).
  exists i. split; [exact Hget|]. split; [exact Hlt|].
  split; [exact Hlab|]. split; [exact Hone|].
  exact (Hbest Hfin).
Defined.

(** ** Pooling: what the body of [forward] computes *)

Lemma index_div (a b n : nat) : (b < n)%nat -> ((a * n + b) / n = a)%nat.
Proof. intros H. symmetry. apply (Nat.div_unique _ _ _ b); lia. Qed.

Lemma index_mod (a b n : nat) : (b < n)%nat -> ((a * n + b) mod n = b)%nat.
Proof. intros H. symmetry. apply (Nat.mod_unique _ _ a); lia. Qed.

Lemma index_lt (a b n m : nat) :
  (a < n)%nat -> (b < m)%nat -> (a * m + b < n * m)%nat.
Proof. nia. Qed.

Lemma zip_with_tabulate {A B C : Type} (f : A -> B -> C) (n : nat)
    (g : nat -> A) (h : nat -> B) :
  zip_with f (tabulate n g) (tabulate n h) = tabulate n (fun i => f (g i) (h i)).
Proof.
  unfold tabulate. generalize 0%nat.
  induction n as [|n IH]; intros s; [reflexivity|].
  simpl. now rewrite IH.
Qed.

Lemma at_flat_tabulate (n : nat) (f : nat -> fl) (i : nat) :
  (i < n)%nat -> at_flat (tabulate n f) i = f i.
Proof. intros Hi. unfold at_flat. now apply tabulate_nth. Qed.

Lemma forward_pools (self : pyobj) (x r1 r2 : Tensor) (B C H W D : nat) :
  self !! "input_dim1" = Some (PInt (Z.of_nat C)) ->
  self !! "rand_1" = Some (PArr r1) ->
  self !! "rand_2" = Some (PArr r2) ->
  self !! "output_dim" = Some (PInt (Z.of_nat D)) ->
  shape x = [B; C; H; W] ->
  shape r1 = [C; D] ->
  shape r2 = [C; D] ->
  (0 < C)%nat ->
  DTR.forward self x
  = Ok {| shape := [B; D];
          data := tabulate (B * D)
                    (fun i => pooled x r1 r2 C H W (i / D) (i mod D)) |}.
Proof.
  intros Hin H1 H2 Hout Hx Hr1 Hr2 HC.
  destruct x as [sx dx], r1 as [s1 d1], r2 as [s2 d2].
  cbn [shape] in Hx, Hr1, Hr2. subst sx s1 s2.
  assert (Hn : numel [B; H; W; C] = (B * H * W * C)%nat) by (simpl; lia).
  assert (Hn2 : numel [(B * H * W)%nat; D] = (B * H * W * D)%nat)
    by (simpl; lia).
  unfold DTR.forward, size_at, getattr, permute_0231, view_rows, matmul,
    tensor_mul, view4, mean_dim1.
  forward_step. rewrite Hin. forward_step. rewrite Z.eqb_refl. forward_step.
  replace (Z.of_nat C <? 0)%Z with false by (symmetry; apply Z.ltb_ge; lia).
  rewrite Nat2Z.id.
  replace (C =? 0)%nat with false by (symmetry; apply Nat.eqb_neq; lia).
  rewrite Hn, Nat.Div0.mod_mul, Nat.div_mul by lia.
  change (0 =? 0)%nat with true. forward_step.
  rewrite H1. forward_step. rewrite Nat.eqb_refl. forward_step.
  rewrite H2. forward_step. rewrite Nat.eqb_refl. forward_step.
  rewrite decide_True by reflexivity. forward_step.
  rewrite Hout. forward_step.
  replace (Z.of_nat D =? -1)%Z with false by (symmetry; apply Z.eqb_neq; lia).
  replace (Z.of_nat D <? 0)%Z with false by (symmetry; apply Z.ltb_ge; lia).
  rewrite Nat2Z.id, Hn2, Nat.eqb_refl. forward_step.
  assert (HnD : numel [D] = D) by (simpl; lia).
  assert (HnWD : numel [W; D] = (W * D)%nat) by (simpl; lia).
  rewrite HnD, HnWD. rewrite zip_with_tabulate.
  do 2 f_equal. apply tabulate_ext. intros i Hi.
  assert (HD : (0 < D)%nat) by (destruct D; lia).
  assert (Hb : (i / D < B)%nat) by (apply Nat.Div0.div_lt_upper_bound; lia).
  assert (Hk : (i mod D < D)%nat) by (apply Nat.mod_upper_bound; lia).
  unfold pooled. f_equal. f_equal. apply tabulate_ext. intros w Hw.
  set (b := (i / D)%nat) in *. set (k := (i mod D)%nat) in *.
  assert (Hi1 : ((b * W + w) * D + k < B * (W * D))%nat)
    by (rewrite Nat.mul_assoc; repeat apply index_lt; assumption).
  rewrite at_flat_tabulate by exact Hi1.
  assert (Hq : ((b * W + w) * D + k = b * (W * D) + (w * D + k))%nat) by lia.
  assert (Hwk : (w * D + k < W * D)%nat) by (apply index_lt; assumption).
  rewrite Hq. rewrite !(index_div _ _ _ Hwk), !(index_mod _ _ _ Hwk).
  f_equal. f_equal. apply tabulate_ext. intros h Hh.
  assert (Hq2 : ((b * H + h) * (W * D) + (w * D + k)
                 = ((b * H + h) * W + w) * D + k)%nat) by lia.
  rewrite Hq2.
  assert (Hp : (((b * H + h) * W + w) * D + k < B * H * W * D)%nat)
    by (repeat apply index_lt; assumption).
  rewrite at_flat_tabulate by exact Hp.
  rewrite !(index_div _ k D Hk), !(index_mod _ k D Hk).
  unfold sketch, projection. f_equal.
  - f_equal. apply tabulate_ext. intros c Hc. f_equal.
    + assert (Hpc : (((b * H + h) * W + w) * C + c < B * H * W * C)%nat)
        by (repeat apply index_lt; assumption).
      rewrite at_flat_tabulate by exact Hpc.
      rewrite !(index_div _ c C Hc), !(index_mod _ c C Hc).
      rewrite !(index_div _ w W Hw), !(index_mod _ w W Hw).
      rewrite !(index_div _ h H Hh), !(index_mod _ h H Hh).
      reflexivity.
  - f_equal. apply tabulate_ext. intros c Hc. f_equal.
    + assert (Hpc : (((b * H + h) * W + w) * C + c < B * H * W * C)%nat)
        by (repeat apply index_lt; assumption).
      rewrite at_flat_tabulate by exact Hpc.
      rewrite !(index_div _ c C Hc), !(index_mod _ c C Hc).
      rewrite !(index_div _ w W Hw), !(index_mod _ w W Hw).
      rewrite !(index_div _ h H Hh), !(index_mod _ h H Hh).
      reflexivity.
Qed.

(** ** A plain mean: the order of the two averages *)

Lemma tabulate_app {A : Type} (n m : nat) (f : nat -> A) :
  tabulate (n + m) f = tabulate n f ++ tabulate m (fun i => f (n + i)%nat).
Proof.
  unfold tabulate. rewrite seq_app, map_app. f_equal.
  rewrite <- (map_map (fun i => (n + i)%nat) f). f_equal.
  simpl. rewrite <- (Nat.add_0_r n) at 1. symmetry. apply fmap_add_seq.
Qed.

Lemma Rsum_app (l1 l2 : list R) : Rsum (l1 ++ l2) = Rsum l1 + Rsum l2.
Proof. induction l1 as [|a l1 IH]; simpl; [lra | rewrite IH; lra]. Qed.

Lemma Rsum_tabulate_plus (n : nat) (f g : nat -> R) :
  Rsum (tabulate n (fun i => f i + g i))
  = Rsum (tabulate n f) + Rsum (tabulate n g).
Proof.
  revert f g. induction n as [|n IH]; intros f g; [simpl; lra|].
  rewrite !tabulate_S. simpl. rewrite IH. lra.
Qed.

Lemma Rsum_tabulate_div (n : nat) (f : nat -> R) (c : R) :
  Rsum (tabulate n (fun i => f i / c)) = Rsum (tabulate n f) / c.
Proof.
  revert f. induction n as [|n IH]; intros f; [simpl; lra|].
  rewrite !tabulate_S. simpl. rewrite IH. lra.
Qed.

Lemma Rsum_tabulate_zero (n : nat) : Rsum (tabulate n (fun _ => 0)) = 0.
Proof.
  induction n as [|n IH]; [reflexivity|].
  rewrite tabulate_S. simpl. rewrite IH. lra.
Qed.

(** Summing over the height then the width, or the other way round. *)
Lemma Rsum_exchange (H W : nat) (v : nat -> nat -> R) :
  Rsum (tabulate W (fun w => Rsum (tabulate H (fun h => v h w))))
  = Rsum (tabulate H (fun h => Rsum (tabulate W (fun w => v h w)))).
Proof.
  revert v. induction H as [|H IH]; intros v.
  - simpl. apply Rsum_tabulate_zero.
  - rewrite tabulate_S. simpl Rsum at 3. rewrite <- IH.
    rewrite <- Rsum_tabulate_plus. f_equal. apply tabulate_ext. intros w _.
    now rewrite tabulate_S.
Qed.

(** Summing over all [H * W] positions at once. *)
Lemma Rsum_joint (H W : nat) (v : nat -> nat -> R) :
  (0 < W)%nat ->
  Rsum (tabulate (H * W) (fun p => v (p / W) (p mod W))%nat)
  = Rsum (tabulate H (fun h => Rsum (tabulate W (fun w => v h w)))).
Proof.
  intros HW. revert v. induction H as [|H IH]; intros v; [reflexivity|].
  change (S H * W)%nat with (W + H * W)%nat.
  rewrite tabulate_app, Rsum_app, tabulate_S. simpl Rsum at 3. f_equal.
  - f_equal. apply tabulate_ext. intros w Hw.
    now rewrite Nat.div_small, Nat.mod_small by exact Hw.
  - rewrite <- (IH (fun h w => v (S h) w)). f_equal.
    apply tabulate_ext. intros p _.
    replace (W + p)%nat with (p + 1 * W)%nat by lia.
    rewrite Nat.div_add, Nat.Div0.mod_add by lia.
    now rewrite Nat.add_1_r.
Qed.

Lemma fsum_tabulate_Fin (n : nat) (f : nat -> fl) (g : nat -> R) :
  (forall i, (i < n)%nat -> f i = Fin (g i)) ->
  fsum (tabulate n f) = Fin (Rsum (tabulate n g)).
Proof.
  intros Hfg. rewrite (tabulate_ext n f (fun i => Fin (g i)) Hfg).
  unfold tabulate. rewrite <- (map_map g Fin). apply fsum_Fin.
Qed.

Lemma INR_pos_neq (n : nat) : (0 < n)%nat -> INR n <> 0.
Proof. intros Hn. apply not_0_INR. lia. Qed.

(** With finite entries and at least one position, the mean over the
    height followed by the mean over the width is the mean over all
    [H * W] positions. *)
Lemma pooled_joint_mean (x r1 r2 : Tensor) (C H W b k : nat)
    (v : nat -> nat -> R) :
  (0 < H)%nat -> (0 < W)%nat ->
  (forall h w, (h < H)%nat -> (w < W)%nat ->
               sketch x r1 r2 C b h w k = Fin (v h w)) ->
  pooled x r1 r2 C H W b k
  = Fin (Rsum (tabulate (H * W) (fun p => v (p / W) (p mod W))%nat)
         / INR (H * W)).
Proof.
  intros HH HW Hv. unfold pooled, fl_of_nat.
  rewrite (fsum_tabulate_Fin W _
             (fun w => Rsum (tabulate H (fun h => v h w)) / INR H)).
  - rewrite fl_div_Fin by now apply INR_pos_neq.
    f_equal. rewrite Rsum_tabulate_div, Rsum_exchange, Rsum_joint by exact HW.
    rewrite mult_INR. field.
    split; now apply INR_pos_neq.
  - intros w Hw.
    rewrite (fsum_tabulate_Fin H _ (fun h => v h w))
      by (intros h Hh; now apply Hv).
    apply fl_div_Fin. now apply INR_pos_neq.
Qed.

(** Had the default engine the attribute [input_dim1], equal to its
    [input_dim], the call would return one descriptor of [output_dim]
    entries per batch element: the mean over the positions of the Hadamard
    product of the two projections. *)
Lemma forward_after_assigning_input_dim1 :
  exists self : pyobj,
    DTR.default = Ok self /\
    forall (x : Tensor) (B H W : nat),
      shape x = [B; 256%nat; H; W] ->
      DTR.forward (setattr self "input_dim1" (PInt 256)) x
      = Ok {| shape := [B; 1024%nat];
              data := tabulate (B * 1024)
                        (fun i =>
                           pooled x (random_signs 128 256 1024)
                                  (random_signs 1997 256 1024) 256 H W
                                  (i / 1024) (i mod 1024)) |}.
Proof.
  destruct default_attributes as (self & Hself & _ & Hout & _ & H1 & H2).
  exists self. split; [exact Hself|]. intros x B H W Hx.
  apply forward_pools; unfold setattr.
  - now rewrite lookup_insert_eq.
  - now rewrite lookup_insert_ne.
  - now rewrite lookup_insert_ne.
  - now rewrite lookup_insert_ne.
  - exact Hx.
  - apply random_signs_shape.
  - apply random_signs_shape.
  - lia.
Qed.

(** ** Normalisation of a vector *)

Lemma Rsum_squares_scaled (x : list R) (n : R) :
  n <> 0 ->
  Rsum (map (fun v => v * v) (map (fun v => v / n) x))
  = Rsum (map (fun v => v * v) x) / (n * n).
Proof.
  intros Hn. induction x as [|a x IH]; simpl; [field; exact Hn|].
  rewrite IH. field. exact Hn.
Qed.

(** The last step of the angle-list path of [get_dtr]: a vector of finite
    entries that is not zero, divided by its 2-norm, has the 2-norm 1. *)
Lemma normalised_vector_has_unit_norm (x : list R) :
  Rnorm x <> 0 ->
  let dtr_mean := {| shape := [length x]; data := map Fin x |} in
  exists nrm : fl,
    np_linalg_norm_ord2 dtr_mean = Ok nrm /\
    np_linalg_norm_ord2 (np_divide_scalar dtr_mean nrm) = Ok (Fin 1).
Proof.
  intros Hx dtr_mean. exists (Fin (Rnorm x)).
  unfold np_linalg_norm_ord2, np_divide_scalar, dtr_mean. cbn [shape data].
  rewrite vector_norm2_Fin. split; [reflexivity|].
  rewrite map_map.
  rewrite (map_ext _ (fun v => Fin (v / Rnorm x)))
    by (intros v; now apply fl_div_Fin).
  rewrite <- (map_map (fun v => v / Rnorm x) Fin), vector_norm2_Fin.
  do 2 f_equal. unfold Rnorm at 1.
  rewrite Rsum_squares_scaled by exact Hx.
  assert (Hsq : Rnorm x * Rnorm x = Rsum (map (fun v => v * v) x))
    by (apply sqrt_sqrt, Rsum_squares_nonneg).
  rewrite <- Hsq. replace (Rnorm x * Rnorm x / (Rnorm x * Rnorm x)) with 1
    by (field; exact Hx).
  apply sqrt_1.
Qed.
